(** * cvsys: the frame loop of [main.py], its counters and its tracker

    A shallow embedding of [src/main.py].  The frame loop is written as a
    state-passing function over the mutable objects of [main]
    ([class_counter], [counters], the tracker) together with the trace of
    the calls it makes to its collaborators.  The collaborators that live in
    other modules of the repository ([centroidtracker], [handle_properties],
    [targets_conditions_handler], [activity_detection], [activity_handler])
    and the OpenCV network are an interface, [Externals]; the properties of
    [main] are proved for every implementation of it. *)

From Stdlib Require Import ZArith QArith List String Lia.
From stdpp Require Import gmap strings list fin_maps.

Local Open Scope string_scope.
Local Open Scope list_scope.
Local Open Scope Z_scope.

(** ** Python helpers *)

(** [l[i]] for a Python list: a negative index counts from the end, an index
    outside [-len, len) raises [IndexError] ([None]). *)
Definition py_index {A : Type} (l : list A) (i : Z) : option A :=
  let n := Z.of_nat (length l) in
  if (0 <=? i) && (i <? n) then l !! Z.to_nat i
  else if (- n <=? i) && (i <? 0) then l !! Z.to_nat (n + i)
  else None.

(** [a > b] on confidences. *)
Definition Qgt_bool (a b : Q) : bool := negb (Qle_bool a b).

(** ** Data *)

Definition CLASSES : list string :=
  ["background"; "aeroplane"; "bicycle"; "bird"; "boat";
   "bottle"; "bus"; "car"; "cat"; "chair"; "cow"; "diningtable";
   "dog"; "horse"; "motorbike"; "person"; "pottedplant"; "sheep";
   "sofa"; "train"; "tvmonitor"].

(** One row [detections[0, 0, i, :]] of the network output: the confidence,
    the class index [int(detections[0, 0, i, 1])] and the bounding box after
    scaling by the frame size and [astype("int")]. *)
Record RawDetection := {
  det_confidence : Q;
  det_idx : Z;
  det_box : Z * Z * Z * Z
}.

(** The text ["{}: {:.2f}%".format(class_name, confidence * 100)], kept as
    the two values it is formatted from. *)
Record Label := { label_class : string; label_confidence : Q }.

(** The tuple [(p1, p2, label, labely, COLORS[idx], class_name)]; the colour
    is kept as the palette row [idx]. *)
Record RectInfo := {
  p1 : Z * Z;
  p2 : Z * Z;
  label : Label;
  labely : Z;
  color : Z;
  class_name : string
}.

(** [[x1, y1, x2, y2, (p1, p2, label, labely, color, class_name)]]. *)
Record Rect := {
  rx1 : Z; ry1 : Z; rx2 : Z; ry2 : Z;
  info : RectInfo
}.

(** An entry of [objects.items()]: [(object_id, (centroid, rect))]. *)
Definition TrackedItem : Type := nat * ((Z * Z) * Rect).

Definition item_id (o : TrackedItem) : nat := o.1.
Definition item_class (o : TrackedItem) : string := class_name (info o.2.2).

(** The dictionary [object_data] built for every tracked object. *)
Record ObjectData := {
  bounding_box : Z * Z * Z * Z;
  middle_line_coords : (Z * Z) * (Z * Z);
  od_color : Z;
  od_label : Label;
  od_labely : Z;
  object_id : nat;
  centroid : Z * Z;
  counter_name : option string
}.

(** [counters]: counter name to the set of object ids. *)
Abbreviation Counters := (gmap string (gset nat)).

(** The id [x] is in the counter named [c]. *)
Definition member (x : nat) (c : string) (ctrs : Counters) : Prop :=
  exists s, ctrs !! c = Some s /\ x ∈ s.

(** Every id of every counter of [a] is in the same counter of [b]. *)
Definition counters_le (a b : Counters) : Prop :=
  forall c x, member x c a -> member x c b.

(** [class_counter]: class name to the number of objects seen in the frame. *)
Abbreviation ClassCounter := (gmap string Z).

(** ** Detections of a frame (lines 106-145) *)

Definition mk_rect (d : RawDetection) (cls : string) : Rect :=
  let '(x1, y1, x2, y2) := det_box d in
  let bbox_height := y2 - y1 in
  (* int(y1 + bbox_height / 2) + 40: true division, then truncation *)
  let p1 := (x1, Z.quot (2 * y1 + bbox_height) 2 + 40) in
  let p2 := (x2, Z.quot (2 * y2 - bbox_height) 2 + 40) in
  let lbl := {| label_class := cls; label_confidence := det_confidence d |} in
  let labely := if 15 <? y1 - 15 then y1 - 15 else y1 + 15 in
  {| rx1 := x1; ry1 := y1; rx2 := x2; ry2 := y2;
     info := {| p1 := p1; p2 := p2; label := lbl; labely := labely;
                color := det_idx d; class_name := cls |} |}.

Section Detections.
Context {V : Type}.
(** [args["confidence"]] and [program_data['targets']]. *)
Variable confidence_arg : Q.
Variable targets : gmap string V.

(** The body of [for i in np.arange(0, detections.shape[2])]. *)
Definition detection_body (st : list Rect * ClassCounter) (d : RawDetection)
  : option (list Rect * ClassCounter) :=
  let '(rects, class_counter) := st in
  if Qgt_bool (det_confidence d) confidence_arg then
    cls ← py_index CLASSES (det_idx d);
    match targets !! cls with
    | None => Some st                                   (* continue *)
    | Some _ =>
        let class_counter' :=
          <[cls := default 0 (class_counter !! cls) + 1]> class_counter in
        Some (rects ++ [mk_rect d cls], class_counter')
    end
  else Some st.

Fixpoint detection_loop (dets : list RawDetection)
    (st : list Rect * ClassCounter) : option (list Rect * ClassCounter) :=
  match dets with
  | [] => Some st
  | d :: dets' => st' ← detection_body st d; detection_loop dets' st'
  end.

(** [rects = []], [class_counter = {}], then the loop. *)
Definition build_rects (dets : list RawDetection)
  : option (list Rect * ClassCounter) :=
  detection_loop dets ([], ∅).

(** The class of a detection that passes both filters of the loop. *)
Definition passing_class (d : RawDetection) : option string :=
  if Qgt_bool (det_confidence d) confidence_arg then
    match py_index CLASSES (det_idx d) with
    | Some cls => match targets !! cls with Some _ => Some cls | None => None end
    | None => None
    end
  else None.

(** The number of detections of class [c] of the frame that pass the
    confidence filter and the target filter. *)
Fixpoint frame_count (dets : list RawDetection) (c : string) : Z :=
  match dets with
  | [] => 0
  | d :: dets' =>
      (if decide (passing_class d = Some c) then 1 else 0)
      + frame_count dets' c
  end.

(** The rect built for a detection that passes both filters. *)
Definition rect_of (d : RawDetection) : option Rect :=
  mk_rect d <$> passing_class d.

(** The class index of a detection above the threshold is an index of
    [CLASSES], so that [CLASSES[idx]] does not raise. *)
Definition index_ok (d : RawDetection) : Prop :=
  Qgt_bool (det_confidence d) confidence_arg = true ->
  is_Some (py_index CLASSES (det_idx d)).
End Detections.

(** ** Bound eligibility (lines 180-198) *)

Definition eligible (minimum maximum : option Z) (detected_objects : Z) : bool :=
  match minimum, maximum with
  | Some mn, Some mx => (mn <=? detected_objects) && (detected_objects <=? mx)
  | Some mn, None => detected_objects >=? mn
  | None, Some mx => detected_objects <=? mx
  | None, None => true
  end.

(** ** The collaborators of [main] *)

(** The functions [main] imports from the other modules of the repository
    and from OpenCV.  [counters] is a dictionary shared with
    [handle_properties] and [handle_targets_conditions], which may update it
    in place: both return the dictionary as they leave it.
    [handle_activity] is given no state of [main] and returns nothing: it
    appears in the trace of calls only.  Frames are values; what the
    collaborators draw on them is not followed. *)
Class Externals := {
  Frame : Type;
  Activity : Type;
  Properties : Type;
  TargetsConditions : Type;
  Activities : Type;
  ActivitiesConditions : Type;
  TrackerState : Type;
  (** [imutils.resize(frame, width=600)] *)
  resize : Frame -> Frame;
  (** [net.setInput(blob); net.forward()] on the blob of the frame *)
  net_forward : Frame -> list RawDetection;
  get_detected_activity : Frame -> Frame -> Frame -> option Activity;
  handle_properties :
    Frame -> option Properties -> Counters -> ObjectData -> Counters;
  handle_targets_conditions :
    TargetsConditions -> Counters -> Frame -> Counters;
  (** [CentroidTracker()] and [centroid_tracker.update(rects)] *)
  tracker_new : TrackerState;
  tracker_update : TrackerState -> list Rect -> TrackerState * list TrackedItem
}.

Section Main.
Context `{Ext : Externals}.

(** An entry of [program_data['targets']]; every key is optional and read
    with [.get]. *)
Record TargetDefinition := {
  t_min : option Z;
  t_max : option Z;
  t_properties : option Properties;
  t_counter : option string
}.

Record ProgramData := {
  targets : gmap string TargetDefinition;
  targets_conditions : option TargetsConditions;
  activities : option Activities;
  activities_conditions : option ActivitiesConditions
}.

(** The calls of [main] to its collaborators, in program order.
    [CheckBounds] is not a call: it marks the point where the chain of
    [if]s on [minimum] and [maximum] (lines 181-198) is entered and records
    the values of the locals it reads. *)
Inductive Event :=
| CallGetDetectedActivity (frame1 frame2 frame : Frame)
| CallHandleActivity (a : Activity)
    (conds : option ActivitiesConditions) (frame : Frame)
| CallTrackerUpdate (rects : list Rect)
| CallHandleTargetsConditions (tc : TargetsConditions)
    (ctrs : Counters) (frame : Frame)
| CheckBounds (oid : nat) (minimum maximum : option Z)
    (detected_objects : Z)
| CallHandleProperties (frame : Frame) (props : option Properties)
    (ctrs : Counters) (od : ObjectData)
| Print (ctrs : Counters).

(** [check_activities] (lines 39-43). *)
Definition check_activities (acts : option Activities)
    (conds : option ActivitiesConditions) (frame1 frame2 frame : Frame)
    (tr : list Event) : list Event :=
  match acts with
  | Some _ =>
      let tr := tr ++ [CallGetDetectedActivity frame1 frame2 frame] in
      match get_detected_activity frame1 frame2 frame with
      | Some activity => tr ++ [CallHandleActivity activity conds frame]
      | None => tr
      end
  | None => tr
  end.

(** [check_targets_conditions] (lines 46-49). *)
Definition check_targets_conditions (tc : option TargetsConditions)
    (frame : Frame) (w : Counters * list Event) : Counters * list Event :=
  match tc with
  | Some c =>
      (handle_targets_conditions c w.1 frame,
       w.2 ++ [CallHandleTargetsConditions c w.1 frame])
  | None => w
  end.

(** The dictionary [object_data] of lines 169-178. *)
Definition mk_object_data (oid : nat) (cen : Z * Z) (rect : Rect)
    (cname : option string) : ObjectData :=
  {| bounding_box := (rx1 rect, ry1 rect, rx2 rect, ry2 rect);
     middle_line_coords := (p1 (info rect), p2 (info rect));
     od_color := color (info rect);
     od_label := label (info rect);
     od_labely := labely (info rect);
     object_id := oid;
     centroid := cen;
     counter_name := cname |}.

(** *** Reading a trace *)

(** The object id and the value of [detected_objects] at every entry of the
    chain of [if]s on the bounds. *)
Definition bound_checks (tr : list Event) : list (nat * Z) :=
  omap (fun e => match e with
                 | CheckBounds oid _ _ n => Some (oid, n)
                 | _ => None
                 end) tr.

(** The number of calls of [handle_targets_conditions]. *)
Definition evaluations (tr : list Event) : nat :=
  length (List.filter (fun e => match e with
                                | CallHandleTargetsConditions _ _ _ => true
                                | _ => false
                                end) tr).

(** The ids of the objects handed to [handle_properties]. *)
Definition dispatched (tr : list Event) : list nat :=
  omap (fun e => match e with
                 | CallHandleProperties _ _ _ od => Some (object_id od)
                 | _ => None
                 end) tr.

(** The arguments of the calls of [get_detected_activity]. *)
Definition activity_calls (tr : list Event) : list (Frame * Frame * Frame) :=
  omap (fun e => match e with
                 | CallGetDetectedActivity f1 f2 f => Some (f1, f2, f)
                 | _ => None
                 end) tr.

(** The number of calls of [handle_activity]. *)
Definition activity_handlings (tr : list Event) : nat :=
  length (List.filter (fun e => match e with
                                | CallHandleActivity _ _ _ => true
                                | _ => false
                                end) tr).

(** The rects of the calls of [centroid_tracker.update]. *)
Definition tracker_updates (tr : list Event) : list (list Rect) :=
  omap (fun e => match e with
                 | CallTrackerUpdate rects => Some rects
                 | _ => None
                 end) tr.

(** The dictionaries printed. *)
Definition prints (tr : list Event) : list Counters :=
  omap (fun e => match e with
                 | Print ctrs => Some ctrs
                 | _ => None
                 end) tr.

(** The events of [check_activities]. *)
Definition is_activity_event (e : Event) : bool :=
  match e with
  | CallGetDetectedActivity _ _ _ | CallHandleActivity _ _ _ => true
  | _ => false
  end.

(** The events of the loop over the tracked objects. *)
Definition is_object_event (e : Event) : bool :=
  match e with
  | CallHandleTargetsConditions _ _ _ | CheckBounds _ _ _ _
  | CallHandleProperties _ _ _ _ => true
  | _ => false
  end.

(** The state the loop over [objects.items()] works on. *)
Record LoopState := {
  class_counter : ClassCounter;
  counters : Counters;
  trace : list Event
}.

Variable program_data : ProgramData.

(** The body of [for (object_id, (centroid, rect)) in objects.items()]
    (lines 151-198).  [None] is the [KeyError] of
    [program_data['targets'][target_name]]. *)
Definition object_body (frame : Frame) (st : LoopState) (o : TrackedItem)
  : option LoopState :=
  let '(oid, (cen, rect)) := o in
  let target_name := class_name (info rect) in
  tdef ← targets program_data !! target_name;
  let minimum := t_min tdef in
  let maximum := t_max tdef in
  let properties := t_properties tdef in
  let cname := t_counter tdef in
  match class_counter st !! target_name with
  | None => Some st                                      (* continue *)
  | Some detected_objects =>
      let class_counter' :=
        <[target_name := detected_objects - 1]> (class_counter st) in
      let w := check_targets_conditions (targets_conditions program_data)
                 frame (counters st, trace st) in
      let object_data := mk_object_data oid cen rect cname in
      let tr := w.2 ++ [CheckBounds oid minimum maximum detected_objects] in
      if eligible minimum maximum detected_objects then
        Some {| class_counter := class_counter';
                counters := handle_properties frame properties w.1 object_data;
                trace := tr ++ [CallHandleProperties frame properties w.1
                                  object_data] |}
      else
        Some {| class_counter := class_counter';
                counters := w.1;
                trace := tr |}
  end.

Fixpoint objects_loop (frame : Frame) (objects : list TrackedItem)
    (st : LoopState) : option LoopState :=
  match objects with
  | [] => Some st
  | o :: objects' =>
      st' ← object_body frame st o; objects_loop frame objects' st'
  end.

(** What lives across the iterations of [while True]. *)
Record RunState := {
  tracker : TrackerState;
  run_counters : Counters;
  run_trace : list Event
}.

Variable confidence_arg : Q.

(** One iteration of [while True], up to the key test (lines 90-198);
    [raw] is what [video_source.read()] returns. *)
Definition frame_body (frame1 frame2 : Frame) (st : RunState) (raw : Frame)
  : option RunState :=
  let frame := resize raw in
  let tr := check_activities (activities program_data)
              (activities_conditions program_data) frame1 frame2 frame
              (run_trace st) in
  '(rects, cc) ← build_rects confidence_arg (targets program_data)
                   (net_forward frame);
  let '(trk, objects) := tracker_update (tracker st) rects in
  ls ← objects_loop frame objects
         {| class_counter := cc; counters := run_counters st;
            trace := tr ++ [CallTrackerUpdate rects] |};
  Some {| tracker := trk; run_counters := counters ls;
          run_trace := trace ls |}.

(** The inputs of one iteration: the frame read and the value of
    [cv2.waitKey(1)]. *)
Record Tick := { tick_frame : Frame; tick_key : Z }.

(** [key == ord("q")] with [key = cv2.waitKey(1) & 0xFF]. *)
Definition quit_key (t : Tick) : bool := Z.land (tick_key t) 255 =? 113.

(** [Finished]: the loop was left and [print(counters)] ran.  [Running]:
    the inputs are used up and the loop has not been left.  [Raised]: an
    exception left [main]. *)
Inductive Outcome :=
| Finished (printed : Counters) (st : RunState)
| Running (st : RunState)
| Raised.

Fixpoint main_loop (frame1 frame2 : Frame) (ticks : list Tick)
    (st : RunState) : Outcome :=
  match ticks with
  | [] => Running st
  | t :: ticks' =>
      match frame_body frame1 frame2 st (tick_frame t) with
      | None => Raised
      | Some st' =>
          if quit_key t then
            Finished (run_counters st')
              {| tracker := tracker st'; run_counters := run_counters st';
                 run_trace := run_trace st' ++ [Print (run_counters st')] |}
          else main_loop frame1 frame2 ticks' st'
      end
  end.

Definition initial_state : RunState :=
  {| tracker := tracker_new; run_counters := ∅; run_trace := [] |}.

(** [main] (lines 52-223): [read1] and [read2] are the two frames read
    before the loop. *)
Definition main (read1 read2 : Frame) (ticks : list Tick) : Outcome :=
  main_loop (resize read1) (resize read2) ticks initial_state.

(** The iterations alone, without the key test. *)
Fixpoint run_frames (frame1 frame2 : Frame) (raws : list Frame)
    (st : RunState) : option RunState :=
  match raws with
  | [] => Some st
  | raw :: raws' =>
      st' ← frame_body frame1 frame2 st raw;
      run_frames frame1 frame2 raws' st'
  end.

(** The iterations [main] goes through: the ticks before the first [q], and
    that tick. *)
Fixpoint played (ticks : list Tick) : list Tick :=
  match ticks with
  | [] => []
  | t :: ticks' => if quit_key t then [t] else t :: played ticks'
  end.
End Main.

(** ** [centroidtracker.CentroidTracker] *)

Module CentroidTracker.

(** Modelled from the spec: the module [centroidtracker] is not part of the
    sources at hand; the tracked object is the one of section 3 (last known
    centroid, [disappeared_count], latest detection metadata). *)
Record TrackedObject := {
  obj_centroid : Z * Z;
  disappeared_count : nat;
  obj_rect : Rect
}.

(** Modelled from the spec: the tracker state of section 4.1, which
    [centroidtracker] keeps: [next_object_id], the map from [object_id] to
    the tracked object (in registration order, as [objects.items()] is
    iterated by [main]) and the [max_disappeared] threshold. *)
Record State := {
  next_object_id : nat;
  objects : list (nat * TrackedObject);
  max_disappeared : nat
}.

(** Modelled from the spec: [CentroidTracker(max_disappeared)], absent from
    the sources; no object is tracked and the first id is 0. *)
Definition new (max_d : nat) : State :=
  {| next_object_id := 0; objects := []; max_disappeared := max_d |}.

(** Modelled from the spec: the derived centroid
    [((x1+x2)/2, (y1+y2)/2)] of a detection (section 3). *)
Definition centroid_of (r : Rect) : Z * Z :=
  ((rx1 r + rx2 r) / 2, (ry1 r + ry2 r) / 2).

(** Modelled from the spec: registration of a detection as a new object
    with a fresh sequential id (section 4.1, steps 2 and 6). *)
Definition register (st : State) (r : Rect) : State :=
  {| next_object_id := S (next_object_id st);
     objects := objects st ++
       [(next_object_id st,
         {| obj_centroid := centroid_of r; disappeared_count := 0;
            obj_rect := r |})];
     max_disappeared := max_disappeared st |}.

(** Modelled from the spec: the Euclidean distance of step 3, kept squared;
    comparing squares of distances compares the distances. *)
Definition dist2 (a b : Z * Z) : Z :=
  (a.1 - b.1) * (a.1 - b.1) + (a.2 - b.2) * (a.2 - b.2).

(** Modelled from the spec: the pairwise distance matrix of step 3, existing
    objects as rows and new detections as columns. *)
Definition distance_matrix (objs : list (nat * TrackedObject))
    (rects : list Rect) : list (list Z) :=
  map (fun o => map (fun r => dist2 (obj_centroid o.2) (centroid_of r)) rects)
      objs.

(** Modelled from the spec: the minimum distance of a row (step 4). *)
Definition row_min (row : list Z) : Z :=
  match row with
  | [] => 0
  | d :: row' => foldr Z.min d row'
  end.

(** Modelled from the spec: insertion of a row into the rows ordered by
    ascending minimum distance; rows of equal minimum keep their order. *)
Fixpoint insert_row (k : Z) (r : nat) (l : list (Z * nat)) : list (Z * nat) :=
  match l with
  | [] => [(k, r)]
  | (k', r') :: l' =>
      if k <=? k' then (k, r) :: l else (k', r') :: insert_row k r l'
  end.

(** Modelled from the spec: "order rows by each row's minimum distance,
    ascending" (step 4). *)
Definition row_order (D : list (list Z)) : list nat :=
  map snd
    (foldr (fun x acc => insert_row x.1 x.2 acc) []
       (imap (fun i row => (row_min row, i)) D)).

(** Modelled from the spec: the nearest column of a row among the columns
    "not already consumed by an earlier row" (step 4); the first one when
    several are equally near. *)
Fixpoint nearest_free (j : nat) (row : list Z) (used : list nat)
    (best : option (nat * Z)) : option (nat * Z) :=
  match row with
  | [] => best
  | d :: row' =>
      let best' :=
        if bool_decide (j ∈ used) then best
        else match best with
             | Some (_, bd) => if d <? bd then Some (j, d) else best
             | None => Some (j, d)
             end in
      nearest_free (S j) row' used best'
  end.

(** Modelled from the spec: the greedy assignment of step 4, rows in the
    order given, each row and column consumed at most once. *)
Fixpoint greedy (order : list nat) (D : list (list Z)) (used : list nat)
    : list (nat * nat) :=
  match order with
  | [] => []
  | r :: order' =>
      match D !! r ≫= (fun row => nearest_free 0 row used None) with
      | Some (j, _) => (r, j) :: greedy order' D (j :: used)
      | None => greedy order' D used
      end
  end.

(** Modelled from the spec: the column a row was assigned, if any. *)
Fixpoint matched_column (r : nat) (matches : list (nat * nat)) : option nat :=
  match matches with
  | [] => None
  | (r', j) :: matches' =>
      if Nat.eqb r r' then Some j else matched_column r matches'
  end.

(** Modelled from the spec: step 5.  A matched row takes the centroid and
    metadata of its detection and its [disappeared_count] is reset; an
    unmatched row ages by one and is removed when the count exceeds
    [max_disappeared]. *)
Fixpoint age_or_update (max_d : nat) (i : nat)
    (objs : list (nat * TrackedObject)) (matches : list (nat * nat))
    (rects : list Rect) : list (nat * TrackedObject) :=
  match objs with
  | [] => []
  | (id, o) :: objs' =>
      let rest := age_or_update max_d (S i) objs' matches rects in
      match matched_column i matches ≫= (fun j => rects !! j) with
      | Some r =>
          (id, {| obj_centroid := centroid_of r; disappeared_count := 0;
                  obj_rect := r |}) :: rest
      | None =>
          if (max_d <? S (disappeared_count o))%nat then rest
          else (id, {| obj_centroid := obj_centroid o;
                       disappeared_count := S (disappeared_count o);
                       obj_rect := obj_rect o |}) :: rest
      end
  end.

(** Modelled from the spec: the detections left unmatched (step 6), in the
    order of the frame. *)
Definition unmatched (matches : list (nat * nat)) (rects : list Rect)
    : list Rect :=
  omap (fun x => x)
    (imap (fun j r => if bool_decide (j ∈ map snd matches) then None
                      else Some r) rects).

(** Modelled from the spec: the live mapping [update] returns (step 7),
    [object_id -> (centroid, detection_metadata)]. *)
Definition live (st : State) : list TrackedItem :=
  map (fun x => (x.1, (obj_centroid x.2, obj_rect x.2))) (objects st).

(** Modelled from the spec: the state after [update] (section 4.1, steps 1
    to 6). *)
Definition step (st : State) (rects : list Rect) : State :=
  match objects st with
  | [] => foldl register st rects
  | _ :: _ =>
      let D := distance_matrix (objects st) rects in
      let matches := greedy (row_order D) D [] in
      let kept :=
        age_or_update (max_disappeared st) 0 (objects st) matches rects in
      foldl register
        {| next_object_id := next_object_id st; objects := kept;
           max_disappeared := max_disappeared st |}
        (unmatched matches rects)
  end.

(** Modelled from the spec: [update(detections_for_frame)] of
    [centroidtracker]: the new state and the mapping returned. *)
Definition update (st : State) (rects : list Rect)
    : State * list TrackedItem :=
  (step st rects, live (step st rects)).

(** The ids of the live objects. *)
Definition ids (st : State) : list nat := map fst (objects st).

(** The states a tracker goes through on a sequence of frames. *)
Definition steps (st : State) (frames : list (list Rect)) : State :=
  foldl step st frames.

End CentroidTracker.

(** ** The other collaborators, after the specification *)

Module Collaborators.

(** Modelled from the spec: [handle_properties.handle_properties] is not
    part of the sources at hand.  For an eligible object, "if a counter name
    is configured, add the object's id to that named Counter set"
    (section 4.3 (a)); the record handed to the action sink is the call
    itself. *)
Definition handle_properties {F P : Type} (frame : F) (props : option P)
    (ctrs : Counters) (od : ObjectData) : Counters :=
  match counter_name od with
  | Some c => <[c := {[object_id od]} ∪ default ∅ (ctrs !! c)]> ctrs
  | None => ctrs
  end.

(** Modelled from the spec: [targets_conditions_handler.
    handle_targets_conditions] is not part of the sources at hand.  The
    evaluation "must not itself mutate counters" (section 4.3 (b)); what it
    dispatches to the action sink is outside the state of [main]. *)
Definition handle_targets_conditions {F C : Type} (tc : C) (ctrs : Counters)
    (frame : F) : Counters := ctrs.

(** A frame as the collaborators see it: its pixels, and the rows the
    network gives for it. *)
Record Image := {
  pixels : list Z;
  network_output : list RawDetection
}.

(** Sum of the absolute differences of two images, pixel by pixel. *)
Fixpoint abs_diff (a b : list Z) : Z :=
  match a, b with
  | x :: a', y :: b' => Z.abs (x - y) + abs_diff a' b'
  | _, _ => 0
  end.

(** Modelled from the spec: [activity_detection.get_detected_activity] is
    not part of the sources at hand.  The signal is obtained "by
    differencing: accumulate per-pixel ... absolute differences between
    frame pairs, threshold to a binary decision" (section 4.2); a positive
    signal carries the accumulated difference. *)
Definition get_detected_activity (threshold : Z) (frame1 frame2 frame : Image)
    : option Z :=
  let score := abs_diff (pixels frame1) (pixels frame2)
               + abs_diff (pixels frame2) (pixels frame) in
  if threshold <? score then Some score else None.

End Collaborators.

(** The collaborators of [main] as the specification describes them, with
    the tracker threshold [max_d] and the motion [threshold]; properties,
    conditions and activities are kept as their source text. *)
Definition spec_externals (max_d : nat) (threshold : Z) : Externals :=
  {| Frame := Collaborators.Image;
     Activity := Z;
     Properties := list string;
     TargetsConditions := string;
     Activities := list string;
     ActivitiesConditions := string;
     TrackerState := CentroidTracker.State;
     resize := fun f => f;
     net_forward := Collaborators.network_output;
     get_detected_activity := Collaborators.get_detected_activity threshold;
     handle_properties := Collaborators.handle_properties;
     handle_targets_conditions := Collaborators.handle_targets_conditions;
     tracker_new := CentroidTracker.new max_d;
     tracker_update := CentroidTracker.update |}.

(** ** A small scene *)

Module Scene.

Definition ext : Externals := spec_externals 2 10.

(** A detection of class [idx] with confidence [conf] in the box
    [(x, y, x + 20, y + 40)]. *)
Definition det (conf : Q) (idx x y : Z) : RawDetection :=
  {| det_confidence := conf; det_idx := idx;
     det_box := (x, y, x + 20, y + 40) |}.

Definition image (px : list Z) (dets : list RawDetection)
    : Collaborators.Image :=
  {| Collaborators.pixels := px; Collaborators.network_output := dets |}.

Definition person_target : @TargetDefinition ext :=
  {| t_min := Some 2; t_max := Some 4; t_properties := None;
     t_counter := Some "people" |}.

Definition car_target : @TargetDefinition ext :=
  {| t_min := None; t_max := Some 3; t_properties := None;
     t_counter := Some "cars" |}.

(** Targets [person] (between 2 and 4, counter [people]) and [car] (at most
    3, counter [cars]), one condition on the targets, one activity. *)
Definition program : @ProgramData ext :=
  @Build_ProgramData ext
    {[ "person" := person_target; "car" := car_target ]}
    (Some "people >= 1") (Some ["movement"]) (Some "movement").

Definition confidence : Q := 0.2%Q.

(** Two persons and a dog in view. *)
Definition two_persons : Collaborators.Image :=
  image [0; 0; 0]
    [det 0.9%Q 15 100 100; det 0.8%Q 15 300 100; det 0.7%Q 12 200 50].

(** Nothing in view. *)
Definition empty_view (px : list Z) : Collaborators.Image := image px [].

(** A car and a person, then the person alone. *)
Definition car_and_person : Collaborators.Image :=
  image [0; 0; 0] [det 0.9%Q 7 400 100; det 0.9%Q 15 100 100].

Definition person_alone : Collaborators.Image :=
  image [0; 0; 0] [det 0.9%Q 15 100 100].

(** The two frames read before the loop. *)
Definition ref1 : Collaborators.Image := empty_view [0; 0; 0].
Definition ref2 : Collaborators.Image := empty_view [0; 0; 1].

(** A frame that differs much from the reference frames. *)
Definition moved : Collaborators.Image := empty_view [50; 50; 50].

Definition st0 : @RunState ext := @initial_state ext.

(** The state after the frames [raws], from the start of the run. *)
Definition after (raws : list Collaborators.Image) : @RunState ext :=
  default st0 (@run_frames ext program confidence ref1 ref2 raws st0).

(** The frames [raws] run without an exception. *)
Definition runs (raws : list Collaborators.Image) : bool :=
  match @run_frames ext program confidence ref1 ref2 raws st0 with
  | Some _ => true
  | None => false
  end.

(** The rects and the counts of a frame. *)
Definition frame_rects (f : Collaborators.Image) : list Rect :=
  (default ([], ∅)
     (build_rects confidence (targets program)
        (Collaborators.network_output f))).1.

Definition frame_counts (f : Collaborators.Image) : ClassCounter :=
  (default ([], ∅)
     (build_rects confidence (targets program)
        (Collaborators.network_output f))).2.

(** What the tracker returns for the frame [f] after the frames [raws]. *)
Definition tracked (raws : list Collaborators.Image)
    (f : Collaborators.Image) : list TrackedItem :=
  (CentroidTracker.update (tracker (after raws)) (frame_rects f)).2.

(** The state of the loop over the objects at its entry, at the first
    frame of a run. *)
Definition loop_entry (f : Collaborators.Image) : @LoopState ext :=
  {| class_counter := frame_counts f; counters := ∅; trace := [] |}.

(** The two persons of [two_persons] as the tracker returns them, and the
    car of [car_and_person]. *)
Definition person_0 : TrackedItem :=
  (0%nat, ((110, 120), mk_rect (det 0.9%Q 15 100 100) "person")).

Definition person_1 : TrackedItem :=
  (1%nat, ((310, 120), mk_rect (det 0.8%Q 15 300 100) "person")).

Definition car_0 : TrackedItem :=
  (0%nat, ((410, 120), mk_rect (det 0.9%Q 7 400 100) "car")).

(** The state of the loop over the objects [objs] at its exit, at the first
    frame of a run. *)
Definition loop_exit (f : Collaborators.Image) (objs : list TrackedItem)
    : @LoopState ext :=
  default (loop_entry f) (objects_loop program f objs (loop_entry f)).

(** Every counter there is has an id. *)
Definition no_empty_counter (ctrs : Counters) : Prop :=
  forall c s, ctrs !! c = Some s -> s <> ∅.

Definition tick (f : Collaborators.Image) (key : Z) : @Tick ext :=
  @Build_Tick ext f key.

End Scene.

(** * Properties *)

(** ** The loop over the detections *)

Section DetectionFacts.
Context {V : Type}.
Variable confidence_arg : Q.
Variable targets : gmap string V.

Local Abbreviation passing_class' := (passing_class confidence_arg targets).
Local Abbreviation frame_count' := (frame_count confidence_arg targets).
Local Abbreviation rect_of' := (rect_of confidence_arg targets).
Local Abbreviation index_ok' := (index_ok confidence_arg).
Local Abbreviation detection_body' := (detection_body confidence_arg targets).
Local Abbreviation detection_loop' := (detection_loop confidence_arg targets).
Local Abbreviation build_rects' := (build_rects confidence_arg targets).

(** Case analysis on the tests of [frame_count], then arithmetic. *)
Local Ltac count_cases :=
  cbn [from_option]; unfold id; repeat case_decide; simplify_eq;
  try done; try lia; try (f_equal; lia).

Lemma frame_count_nonneg dets c : 0 <= frame_count' dets c.
Proof.
  induction dets as [|d dets IH]; simpl; [lia|].
  destruct (decide _); lia.
Qed.

Lemma passing_class_declared d c :
  passing_class' d = Some c -> is_Some (targets !! c).
Proof.
  unfold passing_class.
  destruct (Qgt_bool _ _); [|done].
  destruct (py_index _ _) as [cls|]; [|done].
  destruct (targets !! cls) eqn:E; [|done].
  intros [= <-]. eauto.
Qed.

Lemma frame_count_declared dets c :
  0 < frame_count' dets c -> is_Some (targets !! c).
Proof.
  induction dets as [|d dets IH]; simpl; [lia|].
  destruct (decide _) as [Hd|]; [|by rewrite Z.add_0_l].
  intros _. by eapply passing_class_declared.
Qed.

(** One detection: the state after the body, when the index is in range. *)
Lemma detection_body_ok rects cc d :
  index_ok' d ->
  detection_body' (rects, cc) d =
    Some match passing_class' d with
         | Some cls => (rects ++ [mk_rect d cls],
                        <[cls := default 0 (cc !! cls) + 1]> cc)
         | None => (rects, cc)
         end.
Proof.
  unfold index_ok, detection_body,
    passing_class.
  destruct (Qgt_bool _ _); [|done].
  intros H. destruct (H eq_refl) as [cls ->]. simpl.
  by destruct (targets !! cls).
Qed.

(** The entries of [class_counter] after the loop, from any start. *)
Lemma detection_loop_counter c dets : forall rects0 cc0 rects cc,
  detection_loop' dets (rects0, cc0) = Some (rects, cc) ->
  cc !! c = if decide (frame_count' dets c = 0) then cc0 !! c
            else Some (default 0 (cc0 !! c) + frame_count' dets c).
Proof.
  induction dets as [|d dets IH]; intros rects0 cc0 rects cc.
  - cbn [detection_loop frame_count].
    intros [= <- <-]. by rewrite decide_True.
  - cbn [detection_loop frame_count].
    destruct (detection_body' (rects0, cc0) d) as [[r1 c1]|] eqn:Hb; [|done].
    cbn [mbind option_bind]. intros Hl. rewrite (IH _ _ _ _ Hl).
    pose proof (frame_count_nonneg dets c).
    revert Hb. unfold detection_body, passing_class.
    destruct (Qgt_bool _ _).
    + destruct (py_index CLASSES (det_idx d)) as [cls|]; [|done].
      cbn [mbind option_bind].
      destruct (targets !! cls); intros [= <- <-].
      * destruct (decide (cls = c)) as [->|Hne].
        -- rewrite lookup_insert_eq. count_cases.
        -- rewrite lookup_insert_ne by done. count_cases.
      * count_cases.
    + intros [= <- <-]. count_cases.
Qed.

(** After the whole loop [class_counter] has an entry for a class exactly
    when a detection of the class passed, and the entry is their number. *)
Lemma build_rects_counter dets rects cc c :
  build_rects' dets = Some (rects, cc) ->
  cc !! c = if decide (frame_count' dets c = 0) then None
            else Some (frame_count' dets c).
Proof.
  unfold build_rects. intros H.
  rewrite (detection_loop_counter c _ _ _ _ _ H).
  rewrite lookup_empty. cbn [from_option]. case_decide; [done|]. f_equal; lia.
Qed.

(** The loop does not raise when the indices are in range, and the rects
    are those of the passing detections, in order. *)
Lemma detection_loop_ok dets : forall rects0 cc0,
  Forall index_ok' dets ->
  exists cc,
    detection_loop' dets (rects0, cc0) = Some (rects0 ++ omap rect_of' dets, cc).
Proof.
  induction dets as [|d dets IH]; intros rects0 cc0 Hok.
  - exists cc0. cbn [detection_loop omap].
    by rewrite app_nil_r.
  - inversion Hok as [|? ? Hd Hds]; subst.
    cbn [detection_loop]. rewrite (detection_body_ok _ _ _ Hd).
    cbn [mbind option_bind].
    change (omap rect_of' (d :: dets))
      with (match rect_of' d with
            | Some y => y :: omap rect_of' dets
            | None => omap rect_of' dets
            end).
    unfold rect_of at 1.
    destruct (passing_class' d) as [cls|] eqn:Hp;
      cbn [fmap option_fmap option_map].
    + destruct (IH (rects0 ++ [mk_rect d cls])
                  (<[cls := default 0 (cc0 !! cls) + 1]> cc0) Hds)
        as (cc & Hloop).
      exists cc. rewrite Hloop. by rewrite <- app_assoc.
    + apply IH, Hds.
Qed.

End DetectionFacts.

(** ** The loop over the tracked objects *)

Section ObjectFacts.
Context `{Ext : Externals}.
Variable program_data : ProgramData.

Local Abbreviation object_body' := (object_body program_data).
Local Abbreviation objects_loop' := (objects_loop program_data).

(** The objects of class [c] in a list of tracked objects. *)
Local Abbreviation of_class c objs :=
  (List.filter (fun o => bool_decide (item_class o = c)) objs).

(** The classes of the tracked objects are declared targets, so that
    [program_data['targets'][target_name]] does not raise. *)
Local Abbreviation declared objs :=
  (Forall (fun o => is_Some (targets program_data !! item_class o)) objs).

(** An object whose class has no entry in [class_counter] takes the
    [continue]: the state is left as it is. *)
Lemma object_body_skip frame st o :
  is_Some (targets program_data !! item_class o) ->
  class_counter st !! item_class o = None ->
  object_body' frame st o = Some st.
Proof.
  destruct o as [oid [cen rect]]. unfold item_class. cbn [snd].
  intros [tdef Ht] Hc. unfold object_body.
  rewrite Ht. cbn [mbind option_bind]. by rewrite Hc.
Qed.

(** An object whose class has the entry [n]: the entry is decremented, the
    conditions on the targets are checked, and the object is handed to
    [handle_properties] when [n] is within the bounds. *)
Lemma object_body_run frame st oid cen rect tdef n :
  targets program_data !! class_name (info rect) = Some tdef ->
  class_counter st !! class_name (info rect) = Some n ->
  object_body' frame st (oid, (cen, rect)) =
    let w := check_targets_conditions (targets_conditions program_data)
               frame (counters st, trace st) in
    let od := mk_object_data oid cen rect (t_counter tdef) in
    let go := eligible (t_min tdef) (t_max tdef) n in
    Some {| class_counter :=
              <[class_name (info rect) := n - 1]> (class_counter st);
            counters :=
              if go then handle_properties frame (t_properties tdef) w.1 od
              else w.1;
            trace :=
              w.2 ++ [CheckBounds oid (t_min tdef) (t_max tdef) n] ++
              if go then [CallHandleProperties frame (t_properties tdef)
                            w.1 od]
              else [] |}.
Proof.
  intros Ht Hc. unfold object_body.
  rewrite Ht. cbn [mbind option_bind]. rewrite Hc. cbv zeta.
  destruct (eligible _ _ _); [|by rewrite app_nil_r].
  by rewrite <- app_assoc.
Qed.

(** The entries of [class_counter] after one object. *)
Lemma object_body_counter frame st o st' c :
  object_body' frame st o = Some st' ->
  class_counter st' !! c =
    if decide (item_class o = c) then Z.pred <$> class_counter st !! c
    else class_counter st !! c.
Proof.
  destruct o as [oid [cen rect]]. unfold item_class. cbn [snd].
  unfold object_body.
  destruct (targets program_data !! _) as [tdef|]; [|done].
  cbn [mbind option_bind].
  destruct (class_counter st !! class_name (info rect)) as [n|] eqn:Hn.
  - assert (Hcc : forall st'', class_counter st'' =
              <[class_name (info rect) := n - 1]> (class_counter st) ->
              class_counter st'' !! c =
                if decide (class_name (info rect) = c)
                then Z.pred <$> class_counter st !! c
                else class_counter st !! c).
    { intros st'' ->. case_decide as Hd.
      - subst c. rewrite lookup_insert_eq, Hn. cbn. f_equal; lia.
      - by rewrite lookup_insert_ne. }
    cbv zeta. destruct (eligible _ _ _); intros [= <-]; by apply Hcc.
  - intros [= <-]. case_decide; [|done]. subst c. by rewrite Hn.
Qed.

Lemma objects_loop_app frame objs1 objs2 st :
  objects_loop' frame (objs1 ++ objs2) st =
  objects_loop' frame objs1 st ≫= objects_loop' frame objs2.
Proof.
  revert st. induction objs1 as [|o objs1 IH]; intros st; [done|].
  cbn [app objects_loop].
  destruct (object_body' frame st o) as [st'|]; [|done].
  cbn [mbind option_bind]. apply IH.
Qed.

Lemma object_body_total frame st o :
  is_Some (targets program_data !! item_class o) ->
  is_Some (object_body' frame st o).
Proof.
  intros Hd. destruct (class_counter st !! item_class o) as [n|] eqn:Hn.
  - destruct Hd as [tdef Ht]. destruct o as [oid [cen rect]].
    unfold item_class in *. cbn [snd] in *.
    rewrite (object_body_run _ _ _ _ _ _ _ Ht Hn). eauto.
  - rewrite object_body_skip; eauto.
Qed.

(** The loop does not raise on objects of declared classes. *)
Lemma objects_loop_total frame objs : forall st,
  declared objs -> is_Some (objects_loop' frame objs st).
Proof.
  induction objs as [|o objs IH]; intros st Hd; [by eexists|].
  inversion Hd as [|? ? Ho Hobjs]; subst.
  cbn [objects_loop].
  destruct (object_body_total frame st o Ho) as [st' ->].
  cbn [mbind option_bind]. by apply IH.
Qed.

(** The entries of [class_counter] after the objects [objs]: one less for
    every object of the class met so far. *)
Lemma objects_loop_counter frame objs c : forall st st',
  objects_loop' frame objs st = Some st' ->
  class_counter st' !! c =
    (fun n => n - Z.of_nat (length (of_class c objs)))
      <$> class_counter st !! c.
Proof.
  induction objs as [|o objs IH]; intros st st'.
  - cbn [objects_loop]. intros [= <-].
    destruct (class_counter st !! c); cbn; [f_equal; lia|done].
  - cbn [objects_loop].
    destruct (object_body' frame st o) as [st1|] eqn:Hb; [|done].
    cbn [mbind option_bind]. intros Hl. rewrite (IH _ _ Hl).
    rewrite (object_body_counter _ _ _ _ c Hb). cbn [List.filter].
    case_decide as Hd.
    + rewrite bool_decide_eq_true_2 by done.
      destruct (class_counter st !! c); cbn; [f_equal; lia|done].
    + by rewrite bool_decide_eq_false_2.
Qed.

End ObjectFacts.

(** ** Reading the trace of one object *)

Section TraceFacts.
Context `{Ext : Externals}.

Lemma bound_checks_app (tr1 tr2 : list Event) :
  bound_checks (tr1 ++ tr2) = bound_checks tr1 ++ bound_checks tr2.
Proof. apply omap_app. Qed.

Lemma dispatched_app (tr1 tr2 : list Event) :
  dispatched (tr1 ++ tr2) = dispatched tr1 ++ dispatched tr2.
Proof. apply omap_app. Qed.

Lemma activity_calls_app (tr1 tr2 : list Event) :
  activity_calls (tr1 ++ tr2) = activity_calls tr1 ++ activity_calls tr2.
Proof. apply omap_app. Qed.

Lemma evaluations_app (tr1 tr2 : list Event) :
  evaluations (tr1 ++ tr2) = (evaluations tr1 + evaluations tr2)%nat.
Proof. unfold evaluations. by rewrite List.filter_app, length_app. Qed.

Lemma activity_handlings_app (tr1 tr2 : list Event) :
  activity_handlings (tr1 ++ tr2)
  = (activity_handlings tr1 + activity_handlings tr2)%nat.
Proof. unfold activity_handlings. by rewrite List.filter_app, length_app. Qed.

(** [check_targets_conditions] calls [handle_targets_conditions] once when a
    condition is configured, and nothing else. *)
Lemma check_targets_conditions_trace tc frame (w : Counters * list Event) :
  exists evs,
    (check_targets_conditions tc frame w).2 = w.2 ++ evs
    /\ bound_checks evs = [] /\ dispatched evs = []
    /\ activity_calls evs = [] /\ activity_handlings evs = 0%nat
    /\ evaluations evs = match tc with Some _ => 1%nat | None => 0%nat end.
Proof.
  destruct tc as [c|]; cbn.
  - by eexists.
  - exists []. by rewrite app_nil_r.
Qed.

End TraceFacts.

(** ** Eligibility of an object *)

Section Eligibility.
Context `{Ext : Externals}.
Variable program_data : ProgramData.

(** The rule of the table of section 4.3 (a). *)
Lemma eligible_rule minimum maximum n :
  eligible minimum maximum n = true <->
  match minimum, maximum with
  | Some mn, Some mx => mn <= n <= mx
  | Some mn, None => n >= mn
  | None, Some mx => n <= mx
  | None, None => True
  end.
Proof.
  destruct minimum as [mn|], maximum as [mx|]; cbn [eligible].
  - rewrite andb_true_iff, !Z.leb_le. tauto.
  - rewrite Z.geb_le. lia.
  - by rewrite Z.leb_le.
  - tauto.
Qed.

(** C3.  For a tracked object whose class is a declared target and has the
    entry [n] in [class_counter] ([n] is the count the code uses for it):
    the object is eligible exactly when [n] is within the configured bounds
    (both: [min <= n <= max]; only min: [n >= min]; only max: [n <= max];
    neither: always); for the bounds 2 and 4 the counts 2, 3, 4 are eligible
    and 0, 1, 5 are not; and the body of the loop hands the record of the
    object to [handle_properties] exactly when it is eligible. *)
Theorem bound_eligibility frame st oid cen rect tdef n :
  targets program_data !! class_name (info rect) = Some tdef ->
  class_counter st !! class_name (info rect) = Some n ->
  let go := eligible (t_min tdef) (t_max tdef) n in
  let od := mk_object_data oid cen rect (t_counter tdef) in
  (go = true <->
     match t_min tdef, t_max tdef with
     | Some mn, Some mx => mn <= n <= mx
     | Some mn, None => n >= mn
     | None, Some mx => n <= mx
     | None, None => True
     end)
  /\ map (eligible (Some 2) (Some 4)) [2; 3; 4] = [true; true; true]
  /\ map (eligible (Some 2) (Some 4)) [0; 1; 5] = [false; false; false]
  /\ exists st' ctrs,
       object_body program_data frame st (oid, (cen, rect)) = Some st'
       /\ bound_checks (trace st') = bound_checks (trace st) ++ [(oid, n)]
       /\ dispatched (trace st')
          = dispatched (trace st) ++ (if go then [oid] else [])
       /\ (go = true ->
           last (trace st')
           = Some (CallHandleProperties frame (t_properties tdef) ctrs od)
           /\ counters st'
              = handle_properties frame (t_properties tdef) ctrs od)
       /\ (go = false -> counters st' = ctrs).
Proof.
  intros Ht Hn go od. split; [apply eligible_rule|].
  split; [done|]. split; [done|].
  rewrite (object_body_run _ _ _ _ _ _ _ _ Ht Hn). cbv zeta.
  fold go. fold od.
  destruct (check_targets_conditions_trace (targets_conditions program_data)
              frame (counters st, trace st))
    as (evs & Hw & Hb & Hd & _).
  cbn [snd] in Hw.
  eexists _, (check_targets_conditions (targets_conditions program_data)
                frame (counters st, trace st)).1.
  split; [reflexivity|]. cbn [trace counters]. rewrite Hw.
  rewrite !bound_checks_app, !dispatched_app, Hb, Hd, !app_nil_r.
  destruct go.
  - split; [done|]. split; [done|]. split; [|done]. intros _.
    split; [|done]. by rewrite !app_assoc, last_snoc.
  - split; [by rewrite app_nil_r|]. split; [by rewrite !app_nil_r|].
    by split.
Qed.

End Eligibility.

(** ** One frame *)

Section FrameFacts.
Context `{Ext : Externals}.
Variable program_data : ProgramData.
Variable confidence_arg : Q.

Local Abbreviation object_body' := (object_body program_data).
Local Abbreviation objects_loop' := (objects_loop program_data).
Local Abbreviation frame_body' := (frame_body program_data confidence_arg).
Local Abbreviation build_rects' :=
  (build_rects confidence_arg (targets program_data)).
Local Abbreviation frame_count' :=
  (frame_count confidence_arg (targets program_data)).
Local Abbreviation of_class c objs :=
  (List.filter (fun o => bool_decide (item_class o = c)) objs).
Local Abbreviation declared objs :=
  (Forall (fun o => is_Some (targets program_data !! item_class o)) objs).

(** The objects whose class has an entry in [class_counter]. *)
Local Abbreviation counted cc objs :=
  (List.filter
     (fun o : TrackedItem => bool_decide (is_Some (cc !! item_class o)))
     objs).

(** What [check_activities] adds to the trace. *)
Lemma check_activities_trace acts conds frame1 frame2 frame tr :
  exists evs,
    check_activities acts conds frame1 frame2 frame tr = tr ++ evs
    /\ bound_checks evs = [] /\ dispatched evs = []
    /\ evaluations evs = 0%nat
    /\ activity_calls evs
       = match acts with
         | Some _ => [(frame1, frame2, frame)]
         | None => []
         end.
Proof.
  unfold check_activities. destruct acts as [a|].
  - destruct (get_detected_activity frame1 frame2 frame) as [act|].
    + exists [CallGetDetectedActivity frame1 frame2 frame;
              CallHandleActivity act conds frame].
      by rewrite <- app_assoc.
    + by exists [CallGetDetectedActivity frame1 frame2 frame].
  - exists []. by rewrite app_nil_r.
Qed.

(** The steps of [frame_body], when it does not raise. *)
Lemma frame_body_inv frame1 frame2 st raw st' :
  frame_body' frame1 frame2 st raw = Some st' ->
  exists rects cc ls,
    build_rects' (net_forward (resize raw)) = Some (rects, cc)
    /\ objects_loop' (resize raw) (tracker_update (tracker st) rects).2
         {| class_counter := cc; counters := run_counters st;
            trace := check_activities (activities program_data)
                       (activities_conditions program_data)
                       frame1 frame2 (resize raw) (run_trace st)
                     ++ [CallTrackerUpdate rects] |} = Some ls
    /\ st' = {| tracker := (tracker_update (tracker st) rects).1;
                run_counters := counters ls; run_trace := trace ls |}.
Proof.
  unfold frame_body.
  destruct (build_rects' _) as [[rects cc]|]; [|done].
  cbn [mbind option_bind].
  destruct (tracker_update (tracker st) rects) as [trk objs] eqn:Hu.
  destruct (objects_loop' _ _ _) as [ls|] eqn:Hl; [|done].
  cbn [mbind option_bind]. intros [= <-].
  exists rects, cc, ls. by rewrite Hu.
Qed.

(** Whether a class has an entry in [class_counter] does not change during
    the loop over the objects. *)
Lemma object_body_present frame st o st' c :
  object_body' frame st o = Some st' ->
  is_Some (class_counter st' !! c) <-> is_Some (class_counter st !! c).
Proof.
  intros Hb. rewrite (object_body_counter _ _ _ _ _ c Hb).
  case_decide; [|done]. by rewrite fmap_is_Some.
Qed.

(** The calls of [handle_targets_conditions] made by the loop: one for
    every object whose class has an entry in [class_counter]. *)
Lemma objects_loop_evaluations frame objs : forall st st',
  objects_loop' frame objs st = Some st' ->
  evaluations (trace st') =
    (evaluations (trace st) +
     match targets_conditions program_data with
     | Some _ => length (counted (class_counter st) objs)
     | None => 0
     end)%nat.
Proof.
  induction objs as [|o objs IH]; intros st st'.
  - cbn [objects_loop]. intros [= <-].
    destruct (targets_conditions program_data); cbn; lia.
  - cbn [objects_loop].
    destruct (object_body' frame st o) as [st1|] eqn:Hb; [|done].
    cbn [mbind option_bind]. intros Hl. rewrite (IH _ _ Hl).
    assert (Hext : counted (class_counter st1) objs
                   = counted (class_counter st) objs).
    { apply List.filter_ext. intros o'. apply bool_decide_ext.
      by eapply object_body_present. }
    rewrite Hext. cbn [List.filter]. clear IH Hl Hext.
    destruct o as [oid [cen rect]]. revert Hb.
    unfold object_body, item_class. cbn [snd].
    destruct (targets program_data !! _) as [tdef|]; [|done].
    cbn [mbind option_bind].
    destruct (class_counter st !! class_name (info rect)) as [n|].
    + rewrite bool_decide_eq_true_2 by eauto. cbv zeta.
      destruct (check_targets_conditions_trace
                  (targets_conditions program_data) frame
                  (counters st, trace st)) as (evs & Hw & _ & _ & _ & _ & He).
      cbn [snd] in Hw.
      destruct (eligible _ _ _); intros [= <-]; cbn [trace]; rewrite Hw;
        rewrite !evaluations_app, He;
        destruct (targets_conditions program_data); cbn; lia.
    + rewrite bool_decide_eq_false_2 by (by intros [? ?]).
      intros [= <-]. destruct (targets_conditions program_data); lia.
Qed.

(** The body of a frame does not raise when the class indices of the
    detections are in range and the tracker returns objects of declared
    classes. *)
Lemma frame_body_total frame1 frame2 st raw :
  Forall (index_ok confidence_arg) (net_forward (resize raw)) ->
  (forall rects, declared (tracker_update (tracker st) rects).2) ->
  is_Some (frame_body' frame1 frame2 st raw).
Proof.
  intros Hok Hdecl. unfold frame_body.
  destruct (detection_loop_ok confidence_arg (targets program_data)
              (net_forward (resize raw)) [] ∅ Hok) as [cc Hcc].
  unfold build_rects. rewrite Hcc. cbn [mbind option_bind].
  specialize (Hdecl ([] ++ omap (rect_of confidence_arg (targets program_data))
                             (net_forward (resize raw)))).
  destruct (tracker_update (tracker st) _) as [trk objs].
  cbn [snd] in Hdecl.
  destruct (objects_loop_total program_data (resize raw) objs
              {| class_counter := cc; counters := run_counters st;
                 trace := check_activities (activities program_data)
                            (activities_conditions program_data)
                            frame1 frame2 (resize raw) (run_trace st)
                          ++ [CallTrackerUpdate
                                ([] ++ omap (rect_of confidence_arg
                                               (targets program_data))
                                         (net_forward (resize raw)))] |}
              Hdecl) as [ls Hls].
  rewrite Hls. by eexists.
Qed.

(** C1, as the code has it.  In a frame whose detections are [dets], let
    the tracker return the objects [pre ++ o :: post], all of declared
    classes, with a detection of the class of [o] passing the filters.  The
    count compared with the bounds for [o] is the number of detections of
    its class that passed the filters in this frame, less one for every
    object of the same class that the loop met before [o] in this frame: the
    entry of [class_counter] is decremented at every object.  It is the
    count of the frame for the first object of a class only.  The counters
    [ctrs] accumulated over the run play no part in it. *)
Theorem bound_count_per_object frame dets rects cc ctrs tr pre o post :
  build_rects' dets = Some (rects, cc) ->
  declared (pre ++ o :: post) ->
  0 < frame_count' dets (item_class o) ->
  let st0 := {| class_counter := cc; counters := ctrs; trace := tr |} in
  let n := frame_count' dets (item_class o)
           - Z.of_nat (length (of_class (item_class o) pre)) in
  exists st1 st2 st3,
    objects_loop' frame pre st0 = Some st1
    /\ object_body' frame st1 o = Some st2
    /\ objects_loop' frame post st2 = Some st3
    /\ objects_loop' frame (pre ++ o :: post) st0 = Some st3
    /\ class_counter st1 !! item_class o = Some n
    /\ bound_checks (trace st2) = bound_checks (trace st1) ++ [(item_id o, n)].
Proof.
  intros Hb Hd Hpos st0 n.
  apply Forall_app in Hd as [Hpre Hd].
  inversion Hd as [|? ? Ho Hpost]; subst.
  destruct (objects_loop_total program_data frame pre st0 Hpre)
    as [st1 Hst1].
  destruct (object_body_total program_data frame st1 o Ho) as [st2 Hst2].
  destruct (objects_loop_total program_data frame post st2 Hpost)
    as [st3 Hst3].
  exists st1, st2, st3. split; [done|]. split; [done|]. split; [done|].
  split.
  { rewrite objects_loop_app, Hst1. cbn [mbind option_bind].
    cbn [objects_loop]. by rewrite Hst2. }
  assert (Hn : class_counter st1 !! item_class o = Some n).
  { rewrite (objects_loop_counter _ _ _ _ _ _ Hst1). cbn [class_counter].
    rewrite (build_rects_counter _ _ _ _ _ _ Hb).
    rewrite decide_False by lia. done. }
  split; [done|].
  destruct Ho as [tdef Ht]. destruct o as [oid [cen rect]].
  unfold item_class, item_id in *. cbn [fst snd] in *.
  rewrite (object_body_run _ _ _ _ _ _ _ _ Ht Hn) in Hst2.
  injection Hst2 as <-. cbn [trace].
  destruct (check_targets_conditions_trace (targets_conditions program_data)
              frame (counters st1, trace st1)) as (evs & -> & He & _).
  cbn [snd]. rewrite !bound_checks_app, He, app_nil_r.
  f_equal. by destruct (eligible _ _ _).
Qed.

(** C2, as the code has it.  The condition on the targets is evaluated by
    the body of the loop over the tracked objects: in a frame,
    [handle_targets_conditions] is called once for every object returned by
    the tracker whose class has a detection passing the filters in this
    frame, whether the object is within its bounds or not, and is not called
    otherwise; no condition configured, no call. *)
Theorem conditions_evaluated_per_object frame1 frame2 st raw st' :
  frame_body' frame1 frame2 st raw = Some st' ->
  let dets := net_forward (resize raw) in
  exists rects cc,
    build_rects' dets = Some (rects, cc)
    /\ evaluations (run_trace st') =
       (evaluations (run_trace st) +
        match targets_conditions program_data with
        | Some _ =>
            length (List.filter
                      (fun o => (0 <? frame_count' dets (item_class o))%Z)
                      (tracker_update (tracker st) rects).2)
        | None => 0
        end)%nat.
Proof.
  intros Hf dets. subst dets.
  destruct (frame_body_inv _ _ _ _ _ Hf) as (rects & cc & ls & Hb & Hl & ->).
  exists rects, cc. split; [done|]. cbn [run_trace].
  rewrite (objects_loop_evaluations _ _ _ _ Hl). cbn [class_counter trace].
  destruct (check_activities_trace (activities program_data)
              (activities_conditions program_data) frame1 frame2
              (resize raw) (run_trace st)) as (evs & -> & _ & _ & He & _).
  rewrite !evaluations_app, He. cbn [evaluations List.filter length].
  assert (Hext : counted cc (tracker_update (tracker st) rects).2
          = List.filter
              (fun o => 0 <? frame_count' (net_forward (resize raw))
                               (item_class o))
              (tracker_update (tracker st) rects).2).
  { apply List.filter_ext. intros o.
    rewrite (build_rects_counter _ _ _ _ _ (item_class o) Hb).
    pose proof (frame_count_nonneg confidence_arg (targets program_data)
                  (net_forward (resize raw)) (item_class o)).
    case_decide.
    - rewrite bool_decide_eq_false_2 by (by intros [? ?]).
      symmetry. apply Z.ltb_ge. lia.
    - rewrite bool_decide_eq_true_2 by eauto.
      symmetry. apply Z.ltb_lt. lia. }
  rewrite Hext. destruct (targets_conditions program_data); lia.
Qed.

(** C10.  In a frame whose detections are [dets], a tracked object [o] of a
    declared class of which no detection passed the filters is skipped
    whatever its bounds are: the body of the loop leaves the state (the
    counts of the frame, the counters, the trace of calls) as it is, and the
    loop over the objects gives what it gives without [o]. *)
Theorem absent_class_skipped frame dets rects cc ctrs tr pre o post :
  build_rects' dets = Some (rects, cc) ->
  is_Some (targets program_data !! item_class o) ->
  frame_count' dets (item_class o) = 0 ->
  let st0 := {| class_counter := cc; counters := ctrs; trace := tr |} in
  cc !! item_class o = None
  /\ (forall st1, objects_loop' frame pre st0 = Some st1 ->
       object_body' frame st1 o = Some st1)
  /\ objects_loop' frame (pre ++ o :: post) st0
     = objects_loop' frame (pre ++ post) st0.
Proof.
  intros Hb Ho Hz st0.
  assert (Hcc : cc !! item_class o = None).
  { rewrite (build_rects_counter _ _ _ _ _ _ Hb). by rewrite decide_True. }
  assert (Hskip : forall st1, objects_loop' frame pre st0 = Some st1 ->
                  object_body' frame st1 o = Some st1).
  { intros st1 Hst1. apply object_body_skip; [done|].
    rewrite (objects_loop_counter _ _ _ _ _ _ Hst1). subst st0.
    cbn [class_counter]. by rewrite Hcc. }
  split; [done|]. split; [done|].
  rewrite !objects_loop_app.
  destruct (objects_loop' frame pre st0) as [st1|] eqn:Hst1; [|done].
  cbn [mbind option_bind objects_loop].
  by rewrite (Hskip st1 eq_refl).
Qed.

End FrameFacts.

(** ** The detections handed to the tracker, the activity check, the run *)

Section RunFacts.
Context `{Ext : Externals}.
Variable program_data : ProgramData.
Variable confidence_arg : Q.

Local Abbreviation frame_body' := (frame_body program_data confidence_arg).
Local Abbreviation run_frames' := (run_frames program_data confidence_arg).
Local Abbreviation main_loop' := (main_loop program_data confidence_arg).
Local Abbreviation main' := (main program_data confidence_arg).
Local Abbreviation build_rects' :=
  (build_rects confidence_arg (targets program_data)).
Local Abbreviation rect_of' := (rect_of confidence_arg (targets program_data)).
Local Abbreviation detection_body' :=
  (detection_body confidence_arg (targets program_data)).

Lemma Qgt_bool_lt a b : Qgt_bool a b = true <-> (b < a)%Q.
Proof.
  unfold Qgt_bool. rewrite negb_true_iff, <- not_true_iff_false.
  rewrite Qle_bool_iff. split; [apply Qnot_le_lt | apply Qlt_not_le].
Qed.

(** The loop over the objects only adds to the trace, and what it adds is
    no call about activities. *)
Lemma objects_loop_trace frame objs : forall st st',
  objects_loop program_data frame objs st = Some st' ->
  exists evs, trace st' = trace st ++ evs
    /\ activity_calls evs = [] /\ activity_handlings evs = 0%nat.
Proof.
  induction objs as [|o objs IH]; intros st st'.
  - cbn [objects_loop]. intros [= <-]. exists []. by rewrite app_nil_r.
  - cbn [objects_loop].
    destruct (object_body program_data frame st o) as [st1|] eqn:Hb; [|done].
    cbn [mbind option_bind]. intros Hl.
    destruct (IH _ _ Hl) as (evs & -> & Hc & Hh).
    assert (exists evs1, trace st1 = trace st ++ evs1
              /\ activity_calls evs1 = []
              /\ activity_handlings evs1 = 0%nat) as (evs1 & -> & Hc1 & Hh1).
    { destruct o as [oid [cen rect]]. revert Hb. unfold object_body.
      destruct (targets program_data !! _) as [tdef|]; [|done].
      cbn [mbind option_bind].
      destruct (class_counter st !! _) as [n|].
      - cbv zeta.
        destruct (check_targets_conditions_trace
                    (targets_conditions program_data) frame
                    (counters st, trace st))
          as (evs1 & Hw & _ & _ & Hc1 & Hh1 & _).
        cbn [snd] in Hw.
        destruct (eligible _ _ _); intros [= <-]; cbn [trace]; rewrite Hw;
          rewrite <- ?app_assoc; eexists; (split; [reflexivity|]);
          rewrite ?activity_calls_app, ?activity_handlings_app, Hc1, Hh1;
          done.
      - intros [= <-]. exists []. by rewrite app_nil_r. }
    exists (evs1 ++ evs). rewrite app_assoc. split; [done|].
    by rewrite activity_calls_app, activity_handlings_app, Hc, Hc1, Hh, Hh1.
Qed.

(** C7.  When the class indices of the detections above the threshold are
    indices of [CLASSES], the loop over the detections does not raise and
    the rects handed to [centroid_tracker.update] are those of the
    detections, in order, whose confidence is above the threshold and whose
    class is a declared target, and no others; a detection of a class that
    is not declared leaves the state of the loop as it is. *)
Theorem detections_filtered dets :
  Forall (index_ok confidence_arg) dets ->
  (exists cc, build_rects' dets = Some (omap rect_of' dets, cc))
  /\ (forall d, is_Some (rect_of' d) <->
        (confidence_arg < det_confidence d)%Q
        /\ exists cls, py_index CLASSES (det_idx d) = Some cls
                       /\ is_Some (targets program_data !! cls))
  /\ (forall st d cls,
        py_index CLASSES (det_idx d) = Some cls ->
        targets program_data !! cls = None ->
        detection_body' st d = Some st)
  /\ (forall frame1 frame2 st raw st',
        net_forward (resize raw) = dets ->
        frame_body' frame1 frame2 st raw = Some st' ->
        tracker st' = (tracker_update (tracker st) (omap rect_of' dets)).1
        /\ In (CallTrackerUpdate (omap rect_of' dets)) (run_trace st')).
Proof.
  intros Hok. split; [|split; [|split]].
  - destruct (detection_loop_ok confidence_arg (targets program_data)
                dets [] ∅ Hok) as [cc Hcc]. by exists cc.
  - intros d. unfold rect_of, passing_class.
    rewrite fmap_is_Some, <- Qgt_bool_lt.
    destruct (Qgt_bool _ _).
    + destruct (py_index CLASSES (det_idx d)) as [cls|].
      * destruct (targets program_data !! cls) as [v|] eqn:Hv.
        -- split; [|by eauto]. intros _. split; [done|].
           exists cls. rewrite Hv. eauto.
        -- split; [by intros [? ?]|].
           intros (_ & cls' & [= <-] & [? Hs]). congruence.
      * split; [by intros [? ?]|]. by intros (_ & cls' & ? & _).
    + split; [by intros [? ?]|]. by intros [? _].
  - intros [rects cc] d cls Hcls Hnot. unfold detection_body.
    destruct (Qgt_bool _ _); [|done].
    rewrite Hcls. cbn [mbind option_bind]. by rewrite Hnot.
  - intros frame1 frame2 st raw st' Hdets Hf.
    destruct (frame_body_inv _ _ _ _ _ _ _ Hf)
      as (rects & cc & ls & Hb & Hl & ->).
    rewrite Hdets in Hb.
    destruct (detection_loop_ok confidence_arg (targets program_data)
                dets [] ∅ Hok) as [cc' Hcc]. cbn [app] in Hcc.
    unfold build_rects in Hb. rewrite Hcc in Hb.
    injection Hb as <- <-. cbn [tracker run_trace]. split; [done|].
    destruct (objects_loop_trace _ _ _ _ Hl) as (evs & -> & _).
    cbn [trace]. apply in_or_app. left. apply in_or_app. right. by left.
Qed.

(** C8.  With activities configured, [check_activities] asks the motion
    detector once and calls [handle_activity] exactly when the detector
    gives a signal (not [None]), with that signal, the conditions on the
    activities and the frame; without a signal it calls nothing else.  In a
    frame this is the only place where [handle_activity] is called. *)
Theorem activity_handled_on_signal acts conds frame1 frame2 frame tr :
  let signal := get_detected_activity frame1 frame2 frame in
  let tr' := check_activities (Some acts) conds frame1 frame2 frame tr in
  tr' = tr ++ CallGetDetectedActivity frame1 frame2 frame ::
              match signal with
              | Some a => [CallHandleActivity a conds frame]
              | None => []
              end
  /\ (activity_handlings tr' = S (activity_handlings tr) <-> is_Some signal)
  /\ (activity_handlings tr' = activity_handlings tr <-> signal = None)
  /\ (forall st raw st',
        activities program_data = Some acts ->
        frame_body' frame1 frame2 st raw = Some st' ->
        activity_handlings (run_trace st') =
          (activity_handlings (run_trace st) +
           match get_detected_activity frame1 frame2 (resize raw) with
           | Some _ => 1
           | None => 0
           end)%nat).
Proof.
  intros signal tr'. subst signal tr'. unfold check_activities.
  split; [|split; [|split]].
  - destruct (get_detected_activity frame1 frame2 frame); [|done].
    by rewrite <- app_assoc.
  - destruct (get_detected_activity frame1 frame2 frame);
      rewrite ?activity_handlings_app; cbn.
    + split; [eauto|lia].
    + split; [lia|by intros [? ?]].
  - destruct (get_detected_activity frame1 frame2 frame);
      rewrite ?activity_handlings_app; cbn.
    + split; [lia|done].
    + split; [done|lia].
  - intros st raw st' Hacts Hf.
    destruct (frame_body_inv _ _ _ _ _ _ _ Hf)
      as (rects & cc & ls & Hb & Hl & ->).
    destruct (objects_loop_trace _ _ _ _ Hl) as (evs & -> & _ & Hh).
    cbn [run_trace trace]. rewrite Hacts. unfold check_activities.
    destruct (get_detected_activity frame1 frame2 (resize raw));
      rewrite !activity_handlings_app, Hh; cbn; lia.
Qed.

(** The calls of the motion detector made by one frame. *)
Lemma frame_body_activity_calls frame1 frame2 st raw st' :
  frame_body' frame1 frame2 st raw = Some st' ->
  activity_calls (run_trace st') =
    activity_calls (run_trace st) ++
    match activities program_data with
    | Some _ => [(frame1, frame2, resize raw)]
    | None => []
    end.
Proof.
  intros Hf.
  destruct (frame_body_inv _ _ _ _ _ _ _ Hf)
    as (rects & cc & ls & Hb & Hl & ->).
  destruct (objects_loop_trace _ _ _ _ Hl) as (evs & -> & Hc & _).
  cbn [run_trace trace].
  destruct (check_activities_trace (activities program_data)
              (activities_conditions program_data) frame1 frame2
              (resize raw) (run_trace st)) as (evs' & -> & _ & _ & _ & Ha).
  rewrite !activity_calls_app, Hc, Ha. cbn. by rewrite !app_nil_r.
Qed.

Lemma run_frames_activity_calls frame1 frame2 raws : forall st st',
  run_frames' frame1 frame2 raws st = Some st' ->
  activity_calls (run_trace st') =
    activity_calls (run_trace st) ++
    match activities program_data with
    | Some _ => map (fun raw => (frame1, frame2, resize raw)) raws
    | None => []
    end.
Proof.
  induction raws as [|raw raws IH]; intros st st'.
  - cbn [run_frames]. intros [= <-].
    destruct (activities program_data); by rewrite app_nil_r.
  - cbn [run_frames].
    destruct (frame_body' frame1 frame2 st raw) as [st1|] eqn:Hf; [|done].
    cbn [mbind option_bind]. intros Hr. rewrite (IH _ _ Hr).
    rewrite (frame_body_activity_calls _ _ _ _ _ Hf).
    destruct (activities program_data); by rewrite <- app_assoc.
Qed.

Lemma run_frames_app frame1 frame2 raws1 raws2 : forall st,
  run_frames' frame1 frame2 (raws1 ++ raws2) st
  = run_frames' frame1 frame2 raws1 st ≫= run_frames' frame1 frame2 raws2.
Proof.
  induction raws1 as [|raw raws1 IH]; intros st; [done|].
  cbn [app run_frames].
  destruct (frame_body' frame1 frame2 st raw) as [st'|]; [|done].
  cbn [mbind option_bind]. apply IH.
Qed.

(** The loop of [main] runs the frames up to the first [q], then prints. *)
Lemma main_loop_quit frame1 frame2 pre t rest : forall st,
  Forall (fun t => quit_key t = false) pre ->
  quit_key t = true ->
  main_loop' frame1 frame2 (pre ++ t :: rest) st =
    match run_frames' frame1 frame2 (map tick_frame (pre ++ [t])) st with
    | Some st' =>
        Finished (run_counters st')
          {| tracker := tracker st'; run_counters := run_counters st';
             run_trace := run_trace st' ++ [Print (run_counters st')] |}
    | None => Raised
    end.
Proof.
  induction pre as [|t0 pre IH]; intros st Hpre Hq.
  - cbn [app map main_loop run_frames].
    destruct (frame_body' frame1 frame2 st (tick_frame t)) as [st'|]; [|done].
    cbn [mbind option_bind]. by rewrite Hq.
  - inversion Hpre as [|? ? Ht0 Hpre']; subst.
    cbn [app map main_loop run_frames].
    destruct (frame_body' frame1 frame2 st (tick_frame t0)) as [st'|];
      [|done].
    cbn [mbind option_bind]. rewrite Ht0. by apply IH.
Qed.

(** Without a [q] the loop is not left. *)
Lemma main_loop_no_quit frame1 frame2 ticks : forall st,
  Forall (fun t => quit_key t = false) ticks ->
  main_loop' frame1 frame2 ticks st =
    match run_frames' frame1 frame2 (map tick_frame ticks) st with
    | Some st' => Running st'
    | None => Raised
    end.
Proof.
  induction ticks as [|t ticks IH]; intros st Hq; [done|].
  inversion Hq as [|? ? Ht Hq']; subst.
  cbn [map main_loop run_frames].
  destruct (frame_body' frame1 frame2 st (tick_frame t)) as [st'|]; [|done].
  cbn [mbind option_bind]. rewrite Ht. by apply IH.
Qed.

Lemma main_loop_played frame1 frame2 ticks : forall st st',
  (main_loop' frame1 frame2 ticks st = Running st'
   \/ exists c, main_loop' frame1 frame2 ticks st = Finished c st') ->
  exists st'',
    run_frames' frame1 frame2 (map tick_frame (played ticks)) st = Some st''
    /\ activity_calls (run_trace st') = activity_calls (run_trace st'').
Proof.
  induction ticks as [|t ticks IH]; intros st st'.
  - cbn. intros [[= <-]|[c [=]]]. by exists st.
  - cbn [main_loop played].
    destruct (frame_body' frame1 frame2 st (tick_frame t)) as [st1|] eqn:Hf.
    + destruct (quit_key t).
      * intros [[=]|[c [= <- <-]]]. exists st1.
        cbn [map run_frames]. rewrite Hf.
        cbn [mbind option_bind]. split; [done|]. cbn [run_trace].
        rewrite activity_calls_app. cbn. by rewrite app_nil_r.
      * intros H. destruct (IH _ _ H) as (st'' & Hr & Hc).
        exists st''. cbn [map run_frames]. rewrite Hf. by cbn.
    + intros [[=]|[c [=]]].
Qed.

(** C4, as the code has it.  The two reference frames are the two frames
    read before the loop, for the whole run: [frame1] and [frame2] are never
    assigned again, and at every frame played the motion detector is asked
    to compare these same two frames with the current frame. *)
Theorem reference_frames_fixed read1 read2 ticks st :
  (main' read1 read2 ticks = Running st
   \/ exists c, main' read1 read2 ticks = Finished c st) ->
  activity_calls (run_trace st) =
    match activities program_data with
    | Some _ =>
        map (fun t => (resize read1, resize read2, resize (tick_frame t)))
            (played ticks)
    | None => []
    end.
Proof.
  unfold main. intros H.
  destruct (main_loop_played _ _ _ _ _ H) as (st'' & Hr & ->).
  rewrite (run_frames_activity_calls _ _ _ _ _ Hr). cbn [app].
  destruct (activities program_data); [|done]. by rewrite map_map.
Qed.

(** C9.  When [q] is pressed at a frame, after frames without it, [main]
    leaves the loop once that frame is done, and what it prints is the
    dictionary [counters], every name with its set of ids, as the last frame
    done left it; if running the frames raises, so does [main]. *)
Theorem counters_printed_at_exit read1 read2 pre t rest :
  Forall (fun t => quit_key t = false) pre ->
  quit_key t = true ->
  main' read1 read2 (pre ++ t :: rest) =
    match run_frames' (resize read1) (resize read2)
            (map tick_frame (pre ++ [t])) initial_state with
    | Some st =>
        Finished (run_counters st)
          {| tracker := tracker st; run_counters := run_counters st;
             run_trace := run_trace st ++ [Print (run_counters st)] |}
    | None => Raised
    end.
Proof. intros Hpre Hq. by apply main_loop_quit. Qed.

End RunFacts.

(** ** The ids of the tracker *)

Section TrackerFacts.
Import CentroidTracker.

Lemma ids_register st r :
  ids (register st r) = ids st ++ [next_object_id st].
Proof. unfold ids, register. cbn [objects]. by rewrite map_app. Qed.

(** Registering detections takes the ids from [next_object_id] on, one
    after the other. *)
Lemma foldl_register rects : forall st,
  ids (foldl register st rects)
  = ids st ++ seq (next_object_id st) (length rects)
  /\ next_object_id (foldl register st rects)
     = (next_object_id st + length rects)%nat
  /\ max_disappeared (foldl register st rects) = max_disappeared st.
Proof.
  induction rects as [|r rects IH]; intros st.
  - cbn. rewrite app_nil_r. repeat split; lia.
  - cbn [foldl length seq]. destruct (IH (register st r)) as (-> & -> & ->).
    rewrite ids_register. cbn [register next_object_id max_disappeared].
    rewrite <- app_assoc. repeat split; cbn; lia.
Qed.

(** Step 5 keeps or removes objects; it gives no id. *)
Lemma age_or_update_sublist max_d matches rects objs : forall i,
  map fst (age_or_update max_d i objs matches rects)
  `sublist_of` map fst objs.
Proof.
  induction objs as [|[id o] objs IH]; intros i; [done|].
  cbn [age_or_update map fst].
  destruct (matched_column i matches ≫= _).
  - cbn [map fst]. by apply sublist_skip.
  - destruct (_ <? _)%nat.
    + by apply sublist_cons.
    + cbn [map fst]. by apply sublist_skip.
Qed.

(** The ids after an update: ids that were live, in their order, then the
    ids registered, which are the next ones. *)
Lemma step_ids st rects :
  exists kept k,
    kept `sublist_of` ids st
    /\ ids (step st rects) = kept ++ seq (next_object_id st) k
    /\ next_object_id (step st rects) = (next_object_id st + k)%nat
    /\ max_disappeared (step st rects) = max_disappeared st.
Proof.
  unfold step. destruct (objects st) as [|o objs] eqn:Hobjs.
  - destruct (foldl_register rects st) as (Hi & Hn & Hm).
    exists (ids st), (length rects). by rewrite Hi, Hn, Hm.
  - set (D := distance_matrix (o :: objs) rects).
    set (matches := greedy (row_order D) D []).
    set (kept := age_or_update (max_disappeared st) 0 (o :: objs)
                   matches rects).
    destruct (foldl_register (unmatched matches rects)
                {| next_object_id := next_object_id st; objects := kept;
                   max_disappeared := max_disappeared st |})
      as (Hi & Hn & Hm).
    exists (map fst kept), (length (unmatched matches rects)).
    rewrite Hi, Hn, Hm. cbn [next_object_id max_disappeared].
    split; [|done]. unfold ids. rewrite Hobjs.
    apply age_or_update_sublist.
Qed.

(** The invariant of the tracker: the live ids are pairwise different and
    all below [next_object_id]. *)
Lemma step_invariant st rects :
  NoDup (ids st) -> Forall (fun i => (i < next_object_id st)%nat) (ids st) ->
  NoDup (ids (step st rects))
  /\ Forall (fun i => (i < next_object_id (step st rects))%nat)
       (ids (step st rects)).
Proof.
  intros Hnd Hlt.
  destruct (step_ids st rects) as (kept & k & Hsub & -> & -> & _).
  assert (Hkept : Forall (fun i => (i < next_object_id st)%nat) kept).
  { rewrite Forall_forall in *. intros i Hi. apply Hlt.
    by eapply elem_of_sublist. }
  split.
  - apply NoDup_app. split; [by eapply sublist_NoDup|].
    split; [|apply NoDup_seq].
    intros i Hi Hseq. rewrite Forall_forall in Hkept.
    apply Hkept in Hi. apply elem_of_seq in Hseq. lia.
  - apply Forall_app. split.
    + eapply Forall_impl; [exact Hkept|]. cbn. lia.
    + apply Forall_forall. intros i Hi. apply elem_of_seq in Hi. lia.
Qed.

Lemma steps_snoc st frames rects :
  steps st (frames ++ [rects]) = step (steps st frames) rects.
Proof. unfold steps. by rewrite foldl_app. Qed.

Lemma steps_invariant max_d frames :
  NoDup (ids (steps (new max_d) frames))
  /\ Forall (fun i => (i < next_object_id (steps (new max_d) frames))%nat)
       (ids (steps (new max_d) frames)).
Proof.
  induction frames as [|rects frames IH] using rev_ind.
  - cbn. split; constructor.
  - rewrite steps_snoc. destruct IH as [Hnd Hlt]. by apply step_invariant.
Qed.

(** [next_object_id] never goes down. *)
Lemma steps_next_le frames : forall st,
  (next_object_id st <= next_object_id (steps st frames))%nat.
Proof.
  induction frames as [|rects frames IH]; intros st; [done|].
  cbn [steps foldl]. etrans; [|apply IH].
  destruct (step_ids st rects) as (? & k & _ & _ & -> & _). lia.
Qed.

(** An id below [next_object_id] that is not live stays out. *)
Lemma steps_not_live i frames : forall st,
  (i < next_object_id st)%nat -> i ∉ ids st -> i ∉ ids (steps st frames).
Proof.
  induction frames as [|rects frames IH]; intros st Hlt Hout; [done|].
  cbn [steps foldl]. apply IH.
  - destruct (step_ids st rects) as (? & k & _ & _ & -> & _). lia.
  - destruct (step_ids st rects) as (kept & k & Hsub & -> & _ & _).
    intros [Hk|Hs]%elem_of_app.
    + apply Hout. by eapply elem_of_sublist.
    + apply elem_of_seq in Hs. lia.
Qed.

(** C6.  For every state [s] the tracker reaches from [CentroidTracker()]
    and every update of it: the live ids are pairwise different; a
    registration gives the id [next_object_id] and makes [next_object_id]
    strictly greater; [next_object_id] does not go down in an update, and
    the ids the update registers are the
    consecutive values of [next_object_id] from its value before the update
    up to its value after, each above every id live before; and an id that
    was given and is live no more is never live again, whatever the later
    frames are, while an object registered at any later update gets an id
    strictly above it. *)
Theorem ids_never_reused max_d frames rects later rects' :
  let s := steps (new max_d) frames in
  let s' := step s rects in
  let s2 := steps s' later in
  NoDup (ids s)
  /\ (forall r, ids (register s r) = ids s ++ [next_object_id s]
               /\ (next_object_id s < next_object_id (register s r))%nat)
  /\ (next_object_id s <= next_object_id s')%nat
  /\ (forall i, i ∈ ids s' -> i ∉ ids s ->
        (next_object_id s <= i < next_object_id s')%nat)
  /\ (forall i, (next_object_id s <= i < next_object_id s')%nat ->
        i ∈ ids s')
  /\ (forall i j, i ∈ ids s -> j ∈ ids s' -> j ∉ ids s -> (i < j)%nat)
  /\ (forall i, i ∈ ids s -> i ∉ ids s' -> i ∉ ids s2)
  /\ (forall i j, i ∈ ids s -> j ∈ ids (step s2 rects') -> j ∉ ids s2 ->
        (i < j)%nat).
Proof.
  intros s s' s2.
  destruct (steps_invariant max_d frames) as [Hnd Hlt]. fold s in Hnd, Hlt.
  rewrite Forall_forall in Hlt.
  destruct (step_ids s rects) as (kept & k & Hsub & Hids & Hnext & _).
  fold s' in Hids, Hnext.
  assert (Hfresh : forall i, i ∈ ids s' -> i ∉ ids s ->
            (next_object_id s <= i < next_object_id s')%nat).
  { intros i Hi Hout. rewrite Hids in Hi.
    apply elem_of_app in Hi as [Hk|Hs].
    - exfalso. apply Hout. by eapply elem_of_sublist.
    - apply elem_of_seq in Hs. lia. }
  split; [done|].
  split; [intros r; split; [apply ids_register|cbn; lia]|].
  split; [lia|]. split; [done|]. split.
  { intros i Hi. rewrite Hids. apply elem_of_app. right.
    apply elem_of_seq. lia. }
  split.
  { intros i j Hi Hj Hout. apply Hlt in Hi.
    specialize (Hfresh j Hj Hout). lia. }
  split.
  { intros i Hi Hout. apply steps_not_live; [|done].
    apply Hlt in Hi. lia. }
  intros i j Hi Hj Hout. apply Hlt in Hi.
  pose proof (steps_next_le later s') as Hle. fold s2 in Hle.
  destruct (step_ids s2 rects') as (kept' & k' & Hsub' & Hids' & _).
  rewrite Hids' in Hj. apply elem_of_app in Hj as [Hk|Hs].
  - exfalso. apply Hout. by eapply elem_of_sublist.
  - apply elem_of_seq in Hs. lia.
Qed.

End TrackerFacts.

(** ** The counters only grow *)

Section CounterFacts.
Context `{Ext : Externals}.
Variable program_data : ProgramData.
Variable confidence_arg : Q.

(** The two collaborators that are handed [counters] remove nothing. *)
Hypothesis handle_properties_grows : forall frame props ctrs od,
  counters_le ctrs (handle_properties frame props ctrs od).
Hypothesis handle_targets_conditions_grows : forall tc ctrs frame,
  counters_le ctrs (handle_targets_conditions tc ctrs frame).

Lemma counters_le_refl ctrs : counters_le ctrs ctrs.
Proof. by intros c x. Qed.

Lemma counters_le_trans a b c :
  counters_le a b -> counters_le b c -> counters_le a c.
Proof. intros Hab Hbc n x H. by apply Hbc, Hab. Qed.

Lemma object_body_grows frame st o st' :
  object_body program_data frame st o = Some st' ->
  counters_le (counters st) (counters st').
Proof.
  destruct o as [oid [cen rect]]. unfold object_body.
  destruct (targets program_data !! _) as [tdef|]; [|done].
  cbn [mbind option_bind].
  destruct (class_counter st !! _) as [n|].
  - cbv zeta.
    assert (Hw : counters_le (counters st)
              (check_targets_conditions (targets_conditions program_data)
                 frame (counters st, trace st)).1).
    { unfold check_targets_conditions.
      destruct (targets_conditions program_data); cbn [fst].
      - apply handle_targets_conditions_grows.
      - apply counters_le_refl. }
    destruct (eligible _ _ _); intros [= <-]; cbn [counters]; [|done].
    eapply counters_le_trans; [exact Hw|]. apply handle_properties_grows.
  - intros [= <-]. apply counters_le_refl.
Qed.

Lemma objects_loop_grows frame objs : forall st st',
  objects_loop program_data frame objs st = Some st' ->
  counters_le (counters st) (counters st').
Proof.
  induction objs as [|o objs IH]; intros st st'.
  - cbn. intros [= <-]. apply counters_le_refl.
  - cbn [objects_loop].
    destruct (object_body program_data frame st o) as [st1|] eqn:Hb; [|done].
    cbn [mbind option_bind]. intros Hl.
    eapply counters_le_trans; [by eapply object_body_grows|by eapply IH].
Qed.

Lemma frame_body_grows frame1 frame2 st raw st' :
  frame_body program_data confidence_arg frame1 frame2 st raw = Some st' ->
  counters_le (run_counters st) (run_counters st').
Proof.
  intros Hf.
  destruct (frame_body_inv _ _ _ _ _ _ _ Hf)
    as (rects & cc & ls & Hb & Hl & ->).
  apply objects_loop_grows in Hl. by cbn in *.
Qed.

Lemma run_frames_grows frame1 frame2 raws : forall st st',
  run_frames program_data confidence_arg frame1 frame2 raws st = Some st' ->
  counters_le (run_counters st) (run_counters st').
Proof.
  induction raws as [|raw raws IH]; intros st st'.
  - cbn. intros [= <-]. apply counters_le_refl.
  - cbn [run_frames].
    destruct (frame_body _ _ _ _ st raw) as [st1|] eqn:Hf; [|done].
    cbn [mbind option_bind]. intros Hr.
    eapply counters_le_trans; [by eapply frame_body_grows|by eapply IH].
Qed.

End CounterFacts.

Section SpecCounters.
Variable max_d : nat.
Variable threshold : Z.

Local Abbreviation ext := (spec_externals max_d threshold).

Variable program_data : @ProgramData ext.
Variable confidence_arg : Q.

(** [handle_properties] as the specification has it adds one id to one
    counter. *)
Lemma spec_handle_properties_grows {F P} (frame : F) (props : option P)
    ctrs od :
  counters_le ctrs (Collaborators.handle_properties frame props ctrs od).
Proof.
  unfold Collaborators.handle_properties.
  destruct (counter_name od) as [c'|]; [|by intros c x].
  intros c x (s & Hs & Hx). unfold member.
  destruct (decide (c' = c)) as [->|Hne].
  - rewrite lookup_insert_eq. eexists. split; [done|].
    rewrite Hs. cbn. set_solver.
  - rewrite lookup_insert_ne by done. eauto.
Qed.

(** C5.  With [handle_properties] and [handle_targets_conditions] as the
    specification describes them, the counters only grow over a run: an id
    that is in a counter after some frames is in that counter after any
    further frames, whatever the tracker does with the object in between;
    and no step of the loop over the tracked objects takes an id out of a
    counter. *)
Theorem counters_monotone frame1 frame2 raws st1 st2 :
  run_frames program_data confidence_arg frame1 frame2 raws st1 = Some st2 ->
  (forall c x, member x c (run_counters st1) -> member x c (run_counters st2))
  /\ (forall frame ls o ls',
        object_body program_data frame ls o = Some ls' ->
        forall c x, member x c (counters ls) -> member x c (counters ls')).
Proof.
  intros H2. split.
  - eapply (run_frames_grows program_data confidence_arg); [..|exact H2].
    + intros. apply spec_handle_properties_grows.
    + by intros ? ? ? ? ?.
  - intros frame ls o ls' Hb.
    eapply (object_body_grows program_data); [..|exact Hb].
    + intros. apply spec_handle_properties_grows.
    + by intros ? ? ? ? ?.
Qed.

End SpecCounters.

(** ** The scene, frame by frame *)

Section SceneFacts.
Import Scene.

Lemma after_run raws :
  runs raws = true ->
  @run_frames ext program confidence ref1 ref2 raws st0 = Some (after raws).
Proof.
  unfold runs, after.
  by destruct (@run_frames ext program confidence ref1 ref2 raws st0).
Qed.

Lemma after_app raws1 raws2 :
  runs (raws1 ++ raws2) = true ->
  @run_frames ext program confidence ref1 ref2 raws2 (after raws1)
  = Some (after (raws1 ++ raws2)).
Proof.
  unfold runs, after. rewrite (run_frames_app program confidence).
  destruct (@run_frames ext program confidence ref1 ref2 raws1 st0)
    as [st1|]; [|done].
  cbn [mbind option_bind default from_option]. unfold id.
  by destruct (@run_frames ext program confidence ref1 ref2 raws2 st1).
Qed.

Lemma running_after (ticks : list (@Tick ext)) :
  Forall (fun t => quit_key t = false) ticks ->
  runs (map (@tick_frame ext) ticks) = true ->
  @main ext program confidence ref1 ref2 ticks
  = Running (after (map (@tick_frame ext) ticks)).
Proof.
  intros Hq Hr. unfold main.
  rewrite (main_loop_no_quit program confidence _ _ _ _ Hq).
  change (@resize ext ref1) with ref1. change (@resize ext ref2) with ref2.
  change (@initial_state ext) with st0. by rewrite (after_run _ Hr).
Qed.

(** On the first frame the tracker registers the two persons as 0 and 1. *)
Example first_frame_tracked : tracked [] two_persons = [person_0; person_1].
Proof. reflexivity. Qed.

(** The car registered at the first frame is still tracked at the second,
    where the person alone is detected. *)
Example car_still_tracked :
  tracked [car_and_person] person_alone
  = [car_0; (1%nat, ((110, 120), mk_rect (det 0.9%Q 15 100 100) "person"))].
Proof. reflexivity. Qed.

(** C1 fails as stated.  Two persons are detected and tracked in the first
    frame; the count of the frame for [person] is 2, and the counts compared
    with the bounds are 2 for the first object and 1 for the second, not 2
    for both. *)
Lemma same_count_for_all_fails :
  frame_count confidence (targets program)
    (Collaborators.network_output two_persons) "person" = 2
  /\ bound_checks (run_trace (after [two_persons]))
     = [(0%nat, 2); (1%nat, 1)]
  /\ ~ (forall st',
          @frame_body ext program confidence ref1 ref2 st0 two_persons
          = Some st' ->
          Forall (fun chk : nat * Z =>
                    chk.2 = frame_count confidence (targets program)
                              (Collaborators.network_output two_persons)
                              "person")
                 (bound_checks (run_trace st'))).
Proof.
  split; [reflexivity|]. split; [reflexivity|].
  intros H. specialize (H (after [two_persons]) eq_refl).
  change (bound_checks (run_trace (after [two_persons])))
    with [(0%nat, 2); (1%nat, 1)] in H.
  inversion H as [|? ? _ H']. inversion H' as [|? ? Hbad _].
  vm_compute in Hbad. discriminate.
Qed.

(** The second of the two persons of the first frame is compared with
    [2 - 1]. *)
Lemma bound_count_per_object_witness :
  exists st1 st2,
    objects_loop program two_persons [person_0] (loop_entry two_persons)
    = Some st1
    /\ class_counter st1 !! "person" = Some (2 - 1)
    /\ object_body program two_persons st1 person_1 = Some st2
    /\ bound_checks (trace st2) = bound_checks (trace st1) ++ [(1%nat, 2 - 1)].
Proof.
  destruct (bound_count_per_object program confidence two_persons
              (Collaborators.network_output two_persons)
              (frame_rects two_persons) (frame_counts two_persons) ∅ []
              [person_0] person_1 [])
    as (st1 & st2 & st3 & H1 & H2 & _ & _ & Hn & Hc).
  - reflexivity.
  - apply List.Forall_cons; [by exists person_target|].
    apply List.Forall_cons; [by exists person_target|]. apply List.Forall_nil.
  - vm_compute. reflexivity.
  - exists st1, st2. exact (conj H1 (conj Hn (conj H2 Hc))).
Defined.

(** C2 fails as stated.  With a condition on the targets configured, a
    frame with nothing tracked evaluates it no time, and a frame with two
    tracked persons evaluates it twice. *)
Lemma once_per_frame_fails :
  evaluations (run_trace (after [empty_view [0; 0; 0]])) = 0%nat
  /\ evaluations (run_trace (after [two_persons])) = 2%nat
  /\ ~ (forall raw st',
          @frame_body ext program confidence ref1 ref2 st0 raw = Some st' ->
          evaluations (run_trace st') = S (evaluations (run_trace st0))).
Proof.
  split; [reflexivity|]. split; [reflexivity|].
  intros H. specialize (H two_persons (after [two_persons]) eq_refl).
  vm_compute in H. discriminate.
Qed.

(** Two tracked persons, two evaluations. *)
Lemma conditions_evaluated_per_object_witness :
  evaluations (run_trace (after [two_persons])) = (0 + 2)%nat.
Proof.
  destruct (conditions_evaluated_per_object program confidence ref1 ref2
              st0 two_persons (after [two_persons]) eq_refl)
    as (rects & cc & Hb & He).
  injection Hb as <- <-. exact He.
Defined.

(** The first person of the first frame: the count 2 is within 2 and 4, and
    the person is handed to [handle_properties]. *)
Lemma bound_eligibility_witness :
  exists st',
    object_body program two_persons (loop_entry two_persons) person_0
    = Some st'
    /\ bound_checks (trace st') = [(0%nat, 2)]
    /\ dispatched (trace st') = [0%nat].
Proof.
  destruct (bound_eligibility program two_persons (loop_entry two_persons)
              0%nat (110, 120) (mk_rect (det 0.9%Q 15 100 100) "person")
              person_target 2 eq_refl eq_refl)
    as (_ & _ & _ & st' & ctrs & Hb & Hc & Hd & _).
  exists st'. exact (conj Hb (conj Hc Hd)).
Defined.

(** The car is tracked but not detected at the second frame: it is skipped,
    though 0 is at most 3. *)
Lemma absent_class_skipped_witness :
  eligible (t_min car_target) (t_max car_target) 0 = true
  /\ frame_counts person_alone !! "car" = None
  /\ objects_loop program person_alone
       (tracked [car_and_person] person_alone) (loop_entry person_alone)
     = objects_loop program person_alone
         (drop 1 (tracked [car_and_person] person_alone))
         (loop_entry person_alone).
Proof.
  split; [reflexivity|].
  destruct (absent_class_skipped program confidence person_alone
              (Collaborators.network_output person_alone)
              (frame_rects person_alone) (frame_counts person_alone) ∅ []
              [] car_0 (drop 1 (tracked [car_and_person] person_alone)))
    as (Hcc & _ & Hl).
  - reflexivity.
  - by exists car_target.
  - reflexivity.
  - split; [exact Hcc | exact Hl].
Defined.

(** Of two persons and a dog, the two persons are handed to the tracker. *)
Lemma detections_filtered_witness :
  exists cc,
    build_rects confidence (targets program)
      (Collaborators.network_output two_persons)
    = Some ([mk_rect (det 0.9%Q 15 100 100) "person";
             mk_rect (det 0.8%Q 15 300 100) "person"], cc).
Proof.
  destruct (detections_filtered program confidence
              (Collaborators.network_output two_persons))
    as ([cc Hcc] & _).
  - repeat (apply List.Forall_cons; [intros _; vm_compute; eauto|]).
    apply List.Forall_nil.
  - exists cc. exact Hcc.
Defined.

(** One frame with motion and one without. *)
Lemma activity_handled_on_signal_witness :
  activity_handlings (run_trace (after [moved])) = 1%nat
  /\ activity_handlings (run_trace (after [two_persons])) = 0%nat.
Proof.
  destruct (activity_handled_on_signal program confidence ["movement"]
              (Some "movement") ref1 ref2 moved [])
    as (_ & _ & _ & Hf).
  split.
  - exact (Hf st0 moved (after [moved]) eq_refl eq_refl).
  - exact (Hf st0 two_persons (after [two_persons]) eq_refl eq_refl).
Defined.

(** C4 fails as stated.  Over four frames the motion detector is asked four
    times, each time with the two frames read before the loop as reference
    frames: at the fourth frame three more recent frames have been read and
    none has become a reference frame. *)
Lemma reference_frames_not_refreshed :
  exists st,
    @main ext program confidence ref1 ref2
      [tick two_persons (-1); tick moved (-1); tick person_alone (-1);
       tick moved (-1)] = Running st
    /\ activity_calls (run_trace st)
       = [(ref1, ref2, two_persons); (ref1, ref2, moved);
          (ref1, ref2, person_alone); (ref1, ref2, moved)]
    /\ ~ (exists f1 f2 f, (f1, f2, f) ∈ activity_calls (run_trace st)
                          /\ (f1, f2) <> (ref1, ref2)).
Proof.
  exists (after [two_persons; moved; person_alone; moved]).
  assert (Hc : activity_calls
                 (run_trace (after [two_persons; moved; person_alone; moved]))
               = [(ref1, ref2, two_persons); (ref1, ref2, moved);
                  (ref1, ref2, person_alone); (ref1, ref2, moved)])
    by reflexivity.
  split.
  { apply (running_after
             [tick two_persons (-1); tick moved (-1); tick person_alone (-1);
              tick moved (-1)]); [|reflexivity].
    repeat (apply List.Forall_cons; [reflexivity|]). apply List.Forall_nil. }
  split; [exact Hc|].
  intros (f1 & f2 & f & Hin & Hne). rewrite Hc in Hin.
  apply Hne. clear Hc Hne.
  repeat (apply elem_of_cons in Hin as [[= -> -> ->]|Hin]; [reflexivity|]).
  by apply elem_of_nil in Hin.
Qed.

(** Three frames, three calls with the same reference frames. *)
Lemma reference_frames_fixed_witness :
  activity_calls
    (run_trace (after [two_persons; moved; person_alone]))
  = [(ref1, ref2, two_persons); (ref1, ref2, moved);
     (ref1, ref2, person_alone)].
Proof.
  apply (reference_frames_fixed program confidence ref1 ref2
           [tick two_persons (-1); tick moved (-1); tick person_alone (-1)]
           (after [two_persons; moved; person_alone])).
  left.
  apply (running_after
           [tick two_persons (-1); tick moved (-1); tick person_alone (-1)]);
    [|reflexivity].
  repeat (apply List.Forall_cons; [reflexivity|]). apply List.Forall_nil.
Defined.

(** [q] at the second frame: the third is not played, and the counters
    printed are those after the second. *)
Lemma counters_printed_at_exit_witness :
  exists st,
    @main ext program confidence ref1 ref2
      [tick two_persons (-1); tick car_and_person 113; tick two_persons 0]
    = Finished (run_counters (after [two_persons; car_and_person])) st
    /\ dom (run_counters (after [two_persons; car_and_person]))
       = {[ "people"; "cars" ]}.
Proof.
  eexists. split; [|reflexivity].
  etransitivity.
  - apply (counters_printed_at_exit program confidence ref1 ref2
             [tick two_persons (-1)] (tick car_and_person 113)
             [tick two_persons 0]); [|reflexivity].
    apply List.Forall_cons; [reflexivity|apply List.Forall_nil].
  - change (@resize ext ref1) with ref1. change (@resize ext ref2) with ref2.
    change (@initial_state ext) with st0.
    change (map tick_frame
              ([tick two_persons (-1)] ++ [tick car_and_person 113]))
      with [two_persons; car_and_person].
    rewrite (after_run [two_persons; car_and_person] eq_refl).
    reflexivity.
Defined.

(** The persons 0 and 1 leave the tracker after three empty frames; 0 stays
    in the counter [people], and the persons that come back are 2 and 3. *)
Lemma counters_monotone_witness :
  member 0 "people"
    (run_counters (after [two_persons; empty_view []; empty_view [];
                          empty_view []]))
  /\ CentroidTracker.ids
       (tracker (after [two_persons; empty_view []; empty_view [];
                        empty_view []])) = []
  /\ member 0 "people"
       (run_counters (after [two_persons; empty_view []; empty_view [];
                             empty_view []; two_persons])).
Proof.
  assert (H0 : member 0 "people"
            (run_counters (after [two_persons; empty_view [];
                                  empty_view []; empty_view []]))).
  { exists {[0%nat]}. split; [reflexivity|]. by apply elem_of_singleton. }
  split; [exact H0|]. split; [reflexivity|].
  destruct (counters_monotone 2 10 program confidence ref1 ref2
              [two_persons]
              (after [two_persons; empty_view []; empty_view [];
                      empty_view []])
              (after [two_persons; empty_view []; empty_view [];
                      empty_view []; two_persons])
              (after_app [two_persons; empty_view []; empty_view [];
                          empty_view []] [two_persons] eq_refl))
    as [Hrun _].
  exact (Hrun "people" 0%nat H0).
Defined.

(** A person seen once, away for three frames, then back at the same place:
    the id 0 is not given again, the person is now 1. *)
Lemma ids_never_reused_witness :
  let seen := frame_rects person_alone in
  let s := CentroidTracker.steps (CentroidTracker.new 2) [seen; []; []] in
  let s' := CentroidTracker.step s [] in
  let s2 := CentroidTracker.steps s' [seen] in
  CentroidTracker.ids s = [0%nat]
  /\ CentroidTracker.ids s' = []
  /\ CentroidTracker.ids s2 = [1%nat]
  /\ 0%nat ∉ CentroidTracker.ids s2.
Proof.
  intros seen s s' s2.
  assert (Hs : CentroidTracker.ids s = [0%nat]) by reflexivity.
  assert (Hs' : CentroidTracker.ids s' = []) by reflexivity.
  split; [exact Hs|]. split; [exact Hs'|]. split; [reflexivity|].
  destruct (ids_never_reused 2 [seen; []; []] [] [seen] [])
    as (_ & _ & _ & _ & _ & _ & Hout & _).
  apply (Hout 0%nat).
  - fold s. rewrite Hs. apply elem_of_cons. by left.
  - fold s s'. rewrite Hs'. apply not_elem_of_nil.
Defined.

End SceneFacts.

(** * Further properties of [main.py] *)

(** ** The detections of a frame (lines 106-145) *)

Section MoreDetectionFacts.
Context {V : Type}.
Variable confidence_arg : Q.
Variable targets : gmap string V.

Local Abbreviation passing_class' := (passing_class confidence_arg targets).
Local Abbreviation frame_count' := (frame_count confidence_arg targets).
Local Abbreviation rect_of' := (rect_of confidence_arg targets).
Local Abbreviation detection_body' := (detection_body confidence_arg targets).
Local Abbreviation detection_loop' := (detection_loop confidence_arg targets).
Local Abbreviation build_rects' := (build_rects confidence_arg targets).

(** The rects of class [c]. *)
Local Abbreviation rects_of_class c rects :=
  (List.filter (fun r : Rect => bool_decide (class_name (info r) = c)) rects).

Lemma mk_rect_class d cls : class_name (info (mk_rect d cls)) = cls.
Proof. unfold mk_rect. by destruct (det_box d) as [[[x1 y1] x2] y2]. Qed.

(** [l[i]] raises exactly for [i] outside [-len(l), len(l)). *)
Lemma py_index_None {A} (l : list A) i :
  py_index l i = None <->
  i < - Z.of_nat (length l) \/ Z.of_nat (length l) <= i.
Proof.
  unfold py_index.
  destruct (0 <=? i) eqn:H0; destruct (i <? Z.of_nat (length l)) eqn:H1;
    cbn [andb].
  - apply Z.leb_le in H0. apply Z.ltb_lt in H1.
    split; [|lia]. intros Hn. apply lookup_ge_None in Hn. lia.
  - apply Z.leb_le in H0. apply Z.ltb_ge in H1.
    rewrite (proj2 (Z.ltb_ge i 0)) by lia. rewrite andb_false_r.
    split; [lia|done].
  - apply Z.leb_gt in H0. apply Z.ltb_lt in H1.
    destruct (- Z.of_nat (length l) <=? i) eqn:H2; cbn [andb].
    + apply Z.leb_le in H2. rewrite (proj2 (Z.ltb_lt i 0)) by lia.
      split; [|lia]. intros Hn. apply lookup_ge_None in Hn. lia.
    + apply Z.leb_gt in H2. split; [lia|done].
  - apply Z.leb_gt in H0. apply Z.ltb_ge in H1. lia.
Qed.

(** The rects after the loop, whenever it does not raise. *)
Lemma detection_loop_rects dets : forall rects0 cc0 rects cc,
  detection_loop' dets (rects0, cc0) = Some (rects, cc) ->
  rects = rects0 ++ omap rect_of' dets.
Proof.
  induction dets as [|d dets IH]; intros rects0 cc0 rects cc.
  - cbn [detection_loop omap]. intros [= <- <-]. by rewrite app_nil_r.
  - cbn [detection_loop].
    destruct (detection_body' (rects0, cc0) d) as [[r1 c1]|] eqn:Hb; [|done].
    cbn [mbind option_bind]. intros Hl. rewrite (IH _ _ _ _ Hl).
    change (omap rect_of' (d :: dets))
      with (match rect_of' d with
            | Some y => y :: omap rect_of' dets
            | None => omap rect_of' dets
            end).
    revert Hb. unfold detection_body, rect_of, passing_class.
    destruct (Qgt_bool _ _); [|by intros [= <- <-]].
    destruct (py_index CLASSES (det_idx d)) as [cls|]; [|done].
    cbn [mbind option_bind].
    destruct (targets !! cls); intros [= <- <-]; [|done].
    cbn [fmap option_fmap option_map]. by rewrite <- app_assoc.
Qed.

(** The rects of a class among those of the passing detections. *)
Lemma rects_of_class_count dets c :
  Z.of_nat (length (rects_of_class c (omap rect_of' dets)))
  = frame_count' dets c.
Proof.
  induction dets as [|d dets IH]; [done|].
  change (omap rect_of' (d :: dets))
    with (match rect_of' d with
          | Some y => y :: omap rect_of' dets
          | None => omap rect_of' dets
          end).
  cbn [frame_count]. unfold rect_of at 1.
  destruct (passing_class' d) as [cls|];
    cbn [fmap option_fmap option_map List.filter].
  - rewrite mk_rect_class. destruct (decide (cls = c)) as [->|Hne].
    + rewrite bool_decide_eq_true_2, decide_True by done.
      cbn [length]. lia.
    + rewrite bool_decide_eq_false_2 by done.
      rewrite decide_False by congruence. lia.
  - rewrite decide_False by done. lia.
Qed.

(** X1.  When the loop over the detections does not raise, the rects and
    [class_counter] agree: every rect is of a declared target class; for
    every class the entry of [class_counter] is the number of rects of the
    class, with no entry when there is none; every entry is at least 1. *)
Theorem rects_agree_with_class_counter dets rects cc :
  build_rects confidence_arg targets dets = Some (rects, cc) ->
  Forall (fun r => is_Some (targets !! class_name (info r))) rects
  /\ (forall c, Z.of_nat (length (rects_of_class c rects))
                = default 0 (cc !! c))
  /\ (forall c n, cc !! c = Some n ->
        1 <= n /\ n = Z.of_nat (length (rects_of_class c rects))).
Proof.
  intros Hb.
  assert (Hr : rects = omap rect_of' dets).
  { unfold build_rects in Hb. by rewrite (detection_loop_rects _ _ _ _ _ Hb). }
  assert (Hc : forall c, Z.of_nat (length (rects_of_class c rects))
                         = default 0 (cc !! c)).
  { intros c. rewrite Hr, rects_of_class_count.
    rewrite (build_rects_counter _ _ _ _ _ c Hb). by case_decide. }
  split; [|split; [exact Hc|]].
  - rewrite Hr. clear. induction dets as [|d dets IH]; [constructor|].
    change (omap rect_of' (d :: dets))
      with (match rect_of' d with
            | Some y => y :: omap rect_of' dets
            | None => omap rect_of' dets
            end).
    unfold rect_of at 1.
    destruct (passing_class' d) as [cls|] eqn:Hp;
      cbn [fmap option_fmap option_map]; [|done].
    constructor; [|done]. rewrite mk_rect_class.
    by eapply passing_class_declared.
  - intros c n Hn. rewrite Hc, Hn. cbn. split; [|done].
    rewrite (build_rects_counter _ _ _ _ _ c Hb) in Hn.
    pose proof (frame_count_nonneg confidence_arg targets dets c).
    case_decide; [done|]. injection Hn as <-. lia.
Qed.

(** X2.  The loop over the detections raises ([IndexError] at
    [CLASSES[idx]]) exactly when some detection has a confidence above the
    threshold and a class index outside [-21, 21); a detection at or below
    the threshold is never looked up. *)
Theorem build_rects_raises_iff dets :
  build_rects confidence_arg targets dets = None <->
  Exists (fun d => (confidence_arg < det_confidence d)%Q
                   /\ (det_idx d < -21 \/ 21 <= det_idx d)) dets.
Proof.
  unfold build_rects. generalize (@nil Rect) (∅ : ClassCounter).
  induction dets as [|d dets IH]; intros rects0 cc0.
  - cbn. split; [done|]. intros H. inversion H.
  - cbn [detection_loop]. rewrite Exists_cons.
    unfold detection_body at 1.
    destruct (Qgt_bool (det_confidence d) confidence_arg) eqn:Hq.
    + destruct (py_index CLASSES (det_idx d)) as [cls|] eqn:Hi;
        cbn [mbind option_bind].
      * assert (Hin : ~ (det_idx d < -21 \/ 21 <= det_idx d)).
        { intros Hout. apply (py_index_None CLASSES) in Hout. congruence. }
        destruct (targets !! cls); cbn [mbind option_bind];
          rewrite IH; tauto.
      * split; [|done]. intros _. left. split.
        -- unfold Qgt_bool in Hq. apply negb_true_iff in Hq.
           apply Qnot_le_lt. intros Hle. apply Qle_bool_iff in Hle.
           congruence.
        -- by apply (py_index_None CLASSES) in Hi.
    + cbn [mbind option_bind]. rewrite IH.
      assert (Hle : ~ (confidence_arg < det_confidence d)%Q).
      { unfold Qgt_bool in Hq. apply negb_false_iff in Hq.
        apply Qle_bool_iff in Hq. by apply Qle_not_lt. }
      tauto.
Qed.


End MoreDetectionFacts.

(** ** The bounds (lines 180-198) and the key (lines 206-210) *)

Section MoreSmallFacts.
Context `{Ext : Externals}.

(** X4.  The counts within the bounds form an interval: a count between
    two eligible counts is eligible; and with a minimum above the maximum no
    count is. *)
Theorem eligible_interval minimum maximum a b c :
  (a <= b <= c ->
   eligible minimum maximum a = true -> eligible minimum maximum c = true ->
   eligible minimum maximum b = true)
  /\ (forall lo hi, hi < lo -> eligible (Some lo) (Some hi) b = false).
Proof.
  split.
  - intros Hb. rewrite !eligible_rule.
    destruct minimum, maximum; lia.
  - intros lo hi Hlt. apply not_true_iff_false.
    rewrite eligible_rule. lia.
Qed.

(** X5.  The loop is left on a key whose low byte is that of [q]: the value
    of [cv2.waitKey] counts modulo 256 only; -1, no key, does not leave. *)
Theorem quit_key_low_byte (t : Tick) :
  (quit_key t = true <-> tick_key t mod 256 = 113)
  /\ (tick_key t = -1 -> quit_key t = false).
Proof.
  unfold quit_key. change 255 with (Z.ones 8).
  rewrite Z.land_ones by lia. change (2 ^ 8) with 256.
  split; [apply Z.eqb_eq|].
  intros ->. reflexivity.
Qed.

End MoreSmallFacts.

(** ** The loop over the tracked objects (lines 151-198) *)

Section MoreObjectFacts.
Context `{Ext : Externals}.
Variable program_data : ProgramData.

Local Abbreviation object_body' := (object_body program_data).
Local Abbreviation objects_loop' := (objects_loop program_data).
Local Abbreviation of_class c objs :=
  (List.filter (fun o => bool_decide (item_class o = c)) objs).
Local Abbreviation counted cc objs :=
  (List.filter
     (fun o : TrackedItem => bool_decide (is_Some (cc !! item_class o)))
     objs).

(** The body raises exactly on a class that is not declared. *)
Lemma object_body_raises frame st o :
  object_body' frame st o = None <->
  targets program_data !! item_class o = None.
Proof.
  split.
  - intros Hb. destruct (targets program_data !! item_class o) eqn:Ht;
      [|done].
    destruct (object_body_total program_data frame st o) as [st' Hst'];
      [by eexists|congruence].
  - destruct o as [oid [cen rect]]. unfold item_class. cbn [snd].
    intros Ht. unfold object_body. by rewrite Ht.
Qed.

(** X6.  The loop over the tracked objects raises ([KeyError] at
    [program_data['targets'][target_name]]) exactly when the tracker returns
    an object whose class is not a declared target, whether or not the class
    has a count in the frame: the definition of the target is read before
    the count is tested. *)
Theorem objects_loop_raises_iff frame objs st :
  objects_loop' frame objs st = None <->
  Exists (fun o => targets program_data !! item_class o = None) objs.
Proof.
  revert st. induction objs as [|o objs IH]; intros st.
  - cbn. split; [done|]. intros H. inversion H.
  - cbn [objects_loop]. rewrite Exists_cons.
    destruct (object_body' frame st o) as [st1|] eqn:Hb;
      cbn [mbind option_bind].
    + rewrite IH. split; [tauto|]. intros [Ho|Hobjs]; [|done].
      apply (object_body_raises frame st) in Ho. congruence.
    + split; [|done]. intros _. left. by eapply object_body_raises.
Qed.

(** X7.  The loop over the tracked objects neither adds nor removes an
    entry of [class_counter]; it leaves every entry at its value less the
    number of tracked objects of the class, which is below zero when the
    tracker returns more objects of a class than were detected. *)
Theorem class_counter_after_objects frame objs st st' :
  objects_loop program_data frame objs st = Some st' ->
  dom (class_counter st') = dom (class_counter st)
  /\ (forall c n, class_counter st !! c = Some n ->
        class_counter st' !! c
        = Some (n - Z.of_nat (length (of_class c objs)))).
Proof.
  intros Hl. split.
  - apply set_eq. intros c. rewrite !elem_of_dom.
    rewrite (objects_loop_counter _ _ _ c _ _ Hl). by rewrite fmap_is_Some.
  - intros c n Hn. rewrite (objects_loop_counter _ _ _ c _ _ Hl).
    by rewrite Hn.
Qed.

(** What the body adds to the trace for an object whose class has a
    count. *)
Lemma object_body_events frame st oid cen rect tdef n :
  targets program_data !! class_name (info rect) = Some tdef ->
  class_counter st !! class_name (info rect) = Some n ->
  exists st' ctrs,
    object_body' frame st (oid, (cen, rect)) = Some st'
    /\ trace st' =
       trace st ++
       match targets_conditions program_data with
       | Some tc => [CallHandleTargetsConditions tc (counters st) frame]
       | None => []
       end ++
       CheckBounds oid (t_min tdef) (t_max tdef) n ::
       if eligible (t_min tdef) (t_max tdef) n
       then [CallHandleProperties frame (t_properties tdef) ctrs
               (mk_object_data oid cen rect (t_counter tdef))]
       else [].
Proof.
  intros Ht Hn. rewrite (object_body_run _ _ _ _ _ _ _ _ Ht Hn). cbv zeta.
  eexists _, (check_targets_conditions (targets_conditions program_data)
                frame (counters st, trace st)).1.
  split; [reflexivity|]. cbn [trace]. unfold check_targets_conditions.
  destruct (targets_conditions program_data); cbn [fst snd app];
    by rewrite <- ?app_assoc.
Qed.

(** X8.  In a frame the bounds are checked for every tracked object whose
    class has a count, in the order of the tracker and once each, however
    far the count has been decremented: an object is skipped only when its
    class has no entry at all. *)
Theorem checked_objects frame objs st st' :
  objects_loop' frame objs st = Some st' ->
  map fst (bound_checks (trace st'))
  = map fst (bound_checks (trace st))
    ++ map item_id (counted (class_counter st) objs).
Proof.
  revert st. induction objs as [|o objs IH]; intros st.
  - cbn [objects_loop]. intros [= <-]. cbn. by rewrite app_nil_r.
  - cbn [objects_loop].
    destruct (object_body' frame st o) as [st1|] eqn:Hb; [|done].
    cbn [mbind option_bind]. intros Hl. rewrite (IH _ Hl).
    assert (Hext : counted (class_counter st1) objs
                   = counted (class_counter st) objs).
    { apply List.filter_ext. intros o'. apply bool_decide_ext.
      by eapply object_body_present. }
    rewrite Hext. cbn [List.filter]. clear IH Hl Hext.
    destruct (targets program_data !! item_class o) as [tdef|] eqn:Ht.
    2:{ apply (object_body_raises frame st) in Ht. congruence. }
    destruct (class_counter st !! item_class o) as [n|] eqn:Hn.
    + rewrite bool_decide_eq_true_2 by eauto.
      destruct o as [oid [cen rect]]. unfold item_class in *.
      cbn [snd] in *.
      destruct (object_body_events frame st oid cen rect tdef n Ht Hn)
        as (st2 & ctrs & Hb2 & Htr).
      rewrite Hb in Hb2. injection Hb2 as <-. rewrite Htr.
      rewrite !bound_checks_app, !map_app.
      destruct (targets_conditions program_data);
        destruct (eligible _ _ _); cbn; by rewrite <- app_assoc.
    + rewrite bool_decide_eq_false_2 by (by intros [? ?]).
      rewrite object_body_skip in Hb by eauto. by injection Hb as <-.
Qed.

(** The loop over the objects adds events of its own kinds only. *)
Lemma objects_loop_events frame objs : forall st st',
  objects_loop' frame objs st = Some st' ->
  exists evs, trace st' = trace st ++ evs
              /\ Forall (fun e => is_object_event e = true) evs.
Proof.
  induction objs as [|o objs IH]; intros st st'.
  - cbn [objects_loop]. intros [= <-]. exists []. by rewrite app_nil_r.
  - cbn [objects_loop].
    destruct (object_body' frame st o) as [st1|] eqn:Hb; [|done].
    cbn [mbind option_bind]. intros Hl.
    destruct (IH _ _ Hl) as (evs & -> & Hk).
    destruct (targets program_data !! item_class o) as [tdef|] eqn:Ht.
    2:{ apply (object_body_raises frame st) in Ht. congruence. }
    destruct (class_counter st !! item_class o) as [n|] eqn:Hn.
    + destruct o as [oid [cen rect]]. unfold item_class in *.
      cbn [snd] in *.
      destruct (object_body_events frame st oid cen rect tdef n Ht Hn)
        as (st2 & ctrs & Hb2 & Htr).
      rewrite Hb in Hb2. injection Hb2 as <-. rewrite Htr.
      match goal with
      | |- context [(trace st ++ ?new) ++ evs] => exists (new ++ evs)
      end.
      split; [by rewrite <- !app_assoc|].
      apply Forall_app. split; [|done].
      destruct (targets_conditions program_data);
        destruct (eligible _ _ _); by repeat constructor.
    + rewrite object_body_skip in Hb by eauto. injection Hb as <-.
      by exists evs.
Qed.


End MoreObjectFacts.

(** ** The frames of a run (lines 87-223) *)

Section MoreRunFacts.
Context `{Ext : Externals}.
Variable program_data : ProgramData.
Variable confidence_arg : Q.

Local Abbreviation frame_body' := (frame_body program_data confidence_arg).
Local Abbreviation run_frames' := (run_frames program_data confidence_arg).
Local Abbreviation main_loop' := (main_loop program_data confidence_arg).
Local Abbreviation main' := (main program_data confidence_arg).
Local Abbreviation rect_of' :=
  (rect_of confidence_arg (targets program_data)).

Lemma tracker_updates_app (tr1 tr2 : list Event) :
  tracker_updates (tr1 ++ tr2) = tracker_updates tr1 ++ tracker_updates tr2.
Proof. apply omap_app. Qed.

Lemma prints_app (tr1 tr2 : list Event) :
  prints (tr1 ++ tr2) = prints tr1 ++ prints tr2.
Proof. apply omap_app. Qed.

(** The events of the loop over the objects are no update of the tracker,
    no print and no call about activities. *)
Lemma object_events_projections (evs : list Event) :
  Forall (fun e => is_object_event e = true) evs ->
  tracker_updates evs = [] /\ prints evs = []
  /\ activity_calls evs = [] /\ activity_handlings evs = 0%nat.
Proof.
  induction 1 as [|e evs He _ IH]; [done|].
  destruct IH as (Ht & Hp & Hc & Hh).
  destruct e; try discriminate He; by cbn.
Qed.

(** The events of [check_activities]: none without activities configured,
    and [handle_activity] is called only after the motion detector. *)
Lemma check_activities_events acts conds frame1 frame2 frame tr :
  exists evs,
    check_activities acts conds frame1 frame2 frame tr = tr ++ evs
    /\ tracker_updates evs = [] /\ prints evs = []
    /\ (activity_handlings evs <= length (activity_calls evs))%nat
    /\ (acts = None -> evs = []).
Proof.
  unfold check_activities. destruct acts as [a|].
  - destruct (get_detected_activity frame1 frame2 frame) as [act|].
    + exists [CallGetDetectedActivity frame1 frame2 frame;
              CallHandleActivity act conds frame].
      rewrite <- app_assoc. repeat split; cbn; done || lia.
    + exists [CallGetDetectedActivity frame1 frame2 frame].
      repeat split; cbn; done || lia.
  - exists []. rewrite app_nil_r. repeat split; cbn; done || lia.
Qed.

(** The calls of a frame, in order: those of [check_activities], one update
    of the tracker with the rects of the passing detections, then the calls
    of the loop over the objects. *)
Lemma frame_body_shape frame1 frame2 st raw st' :
  frame_body' frame1 frame2 st raw = Some st' ->
  exists acts objevs,
    run_trace st' =
      run_trace st ++ acts ++
      CallTrackerUpdate (omap rect_of' (net_forward (resize raw))) :: objevs
    /\ tracker_updates acts = [] /\ prints acts = []
    /\ (activity_handlings acts <= length (activity_calls acts))%nat
    /\ (activities program_data = None -> acts = [])
    /\ Forall (fun e => is_object_event e = true) objevs.
Proof.
  intros Hf.
  destruct (frame_body_inv _ _ _ _ _ _ _ Hf)
    as (rects & cc & ls & Hb & Hl & ->).
  destruct (objects_loop_events program_data _ _ _ _ Hl)
    as (objevs & Htr & Hk).
  destruct (check_activities_events (activities program_data)
              (activities_conditions program_data) frame1 frame2
              (resize raw) (run_trace st))
    as (acts & Ha & Hu & Hp & Hh & Hn).
  exists acts, objevs. cbn [run_trace]. rewrite Htr. cbn [trace].
  rewrite Ha.
  unfold build_rects in Hb.
  rewrite (detection_loop_rects _ _ _ _ _ _ _ Hb). cbn [app].
  rewrite <- !app_assoc. by cbn [app].
Qed.

(** X10.  The tracker is updated exactly once for every frame of a run, in
    the order of the frames, with the rects of the detections of that frame
    that pass the filters: with the empty list when none does. *)
Theorem tracker_updated_every_frame frame1 frame2 raws st st' :
  run_frames' frame1 frame2 raws st = Some st' ->
  tracker_updates (run_trace st')
  = tracker_updates (run_trace st)
    ++ map (fun raw => omap rect_of' (net_forward (resize raw))) raws.
Proof.
  revert st. induction raws as [|raw raws IH]; intros st.
  - cbn [run_frames]. intros [= <-]. by rewrite app_nil_r.
  - cbn [run_frames].
    destruct (frame_body' frame1 frame2 st raw) as [st1|] eqn:Hf; [|done].
    cbn [mbind option_bind]. intros Hr. rewrite (IH _ Hr).
    destruct (frame_body_shape _ _ _ _ _ Hf)
      as (acts & objevs & -> & Hu & _ & _ & _ & Hk).
    destruct (object_events_projections _ Hk) as (Hou & _).
    rewrite !tracker_updates_app, Hu.
    change (tracker_updates (CallTrackerUpdate ?r :: objevs))
      with (r :: tracker_updates objevs).
    rewrite Hou. cbn [map app]. by rewrite <- app_assoc.
Qed.

(** X11.  In a run [handle_activity] is never called more often than the
    motion detector, the motion detector is asked at most once a frame, and
    with no activities configured neither is called. *)
Theorem activity_calls_bounded frame1 frame2 raws st st' :
  run_frames' frame1 frame2 raws st = Some st' ->
  exists calls handlings : nat,
    length (activity_calls (run_trace st'))
    = (length (activity_calls (run_trace st)) + calls)%nat
    /\ activity_handlings (run_trace st')
       = (activity_handlings (run_trace st) + handlings)%nat
    /\ (handlings <= calls <= length raws)%nat
    /\ (activities program_data = None -> calls = 0%nat).
Proof.
  revert st. induction raws as [|raw raws IH]; intros st.
  - cbn [run_frames]. intros [= <-]. exists 0%nat, 0%nat.
    repeat split; cbn; lia.
  - cbn [run_frames].
    destruct (frame_body' frame1 frame2 st raw) as [st1|] eqn:Hf; [|done].
    cbn [mbind option_bind]. intros Hr.
    destruct (IH _ Hr) as (calls & handlings & -> & -> & Hle & Hnone).
    destruct (frame_body_shape _ _ _ _ _ Hf)
      as (acts & objevs & Htr & _ & _ & Hh & Hn & Hk).
    destruct (object_events_projections _ Hk) as (_ & _ & Hoc & Hoh).
    assert (Hc1 : activity_calls (run_trace st1)
                  = activity_calls (run_trace st) ++ activity_calls acts).
    { rewrite Htr, !activity_calls_app.
      change (activity_calls (CallTrackerUpdate ?r :: objevs))
        with (activity_calls objevs).
      by rewrite Hoc, app_nil_r. }
    assert (Hh1 : activity_handlings (run_trace st1)
                  = (activity_handlings (run_trace st)
                     + activity_handlings acts)%nat).
    { rewrite Htr, !activity_handlings_app.
      change (activity_handlings (CallTrackerUpdate ?r :: objevs))
        with (activity_handlings objevs).
      rewrite Hoh. lia. }
    assert (Hone : (length (activity_calls acts) <= 1)%nat).
    { rewrite (frame_body_activity_calls _ _ _ _ _ _ _ Hf) in Hc1.
      apply app_inv_head in Hc1. rewrite <- Hc1.
      destruct (activities program_data); cbn; lia. }
    exists (length (activity_calls acts) + calls)%nat,
           (activity_handlings acts + handlings)%nat.
    rewrite Hc1, Hh1, length_app. cbn [length].
    repeat split; try lia.
    intros Hnone'. rewrite (Hn Hnone'), (Hnone Hnone'). by cbn.
Qed.

(** The frames print nothing. *)
Lemma run_frames_prints frame1 frame2 raws : forall st st',
  run_frames' frame1 frame2 raws st = Some st' ->
  prints (run_trace st') = prints (run_trace st).
Proof.
  induction raws as [|raw raws IH]; intros st st'.
  - cbn [run_frames]. by intros [= <-].
  - cbn [run_frames].
    destruct (frame_body' frame1 frame2 st raw) as [st1|] eqn:Hf; [|done].
    cbn [mbind option_bind]. intros Hr. rewrite (IH _ _ Hr).
    destruct (frame_body_shape _ _ _ _ _ Hf)
      as (acts & objevs & -> & _ & Hp & _ & _ & Hk).
    destruct (object_events_projections _ Hk) as (_ & Hop & _).
    rewrite !prints_app, Hp.
    change (prints (CallTrackerUpdate ?r :: objevs)) with (prints objevs).
    by rewrite Hop, !app_nil_r.
Qed.

(** The loop of [main] in one formula: the frames up to the first [q] are
    run; an exception ends [main]; otherwise the counters are printed when
    there was a [q]. *)
Lemma main_loop_outcome frame1 frame2 ticks : forall st,
  main_loop' frame1 frame2 ticks st =
    match run_frames' frame1 frame2 (map tick_frame (played ticks)) st with
    | None => Raised
    | Some st' =>
        if existsb quit_key ticks then
          Finished (run_counters st')
            {| tracker := tracker st'; run_counters := run_counters st';
               run_trace := run_trace st' ++ [Print (run_counters st')] |}
        else Running st'
    end.
Proof.
  induction ticks as [|t ticks IH]; intros st; [done|].
  cbn [main_loop played existsb]. destruct (quit_key t) eqn:Hq.
  - cbn [map run_frames orb].
    by destruct (frame_body' frame1 frame2 st (tick_frame t)).
  - cbn [map run_frames orb].
    destruct (frame_body' frame1 frame2 st (tick_frame t)) as [st1|];
      [|done].
    cbn [mbind option_bind]. apply IH.
Qed.

(** X12.  [main] prints the counters only after a [q]: when it has printed,
    some key read was a [q], the frames up to that key were run without an
    exception, the dictionary printed is [counters] as these frames left it,
    and it is printed once, as the last thing [main] does. *)
Theorem finished_only_on_quit read1 read2 ticks c st :
  main' read1 read2 ticks = Finished c st ->
  Exists (fun t => quit_key t = true) ticks
  /\ exists st0,
       run_frames' (resize read1) (resize read2)
         (map tick_frame (played ticks)) initial_state = Some st0
       /\ c = run_counters st0
       /\ run_counters st = c
       /\ tracker st = tracker st0
       /\ run_trace st = run_trace st0 ++ [Print c]
       /\ prints (run_trace st) = [c].
Proof.
  unfold main. rewrite main_loop_outcome.
  destruct (run_frames' _ _ _ _) as [st0|] eqn:Hr; [|done].
  destruct (existsb quit_key ticks) eqn:Hq; [|done].
  intros [= <- <-]. split.
  - apply existsb_exists in Hq as (t & Hin & Ht).
    apply Exists_exists. exists t. split; [|done]. by apply list_elem_of_In.
  - exists st0. cbn [run_counters tracker run_trace].
    repeat split; try done.
    rewrite prints_app, (run_frames_prints _ _ _ _ _ Hr). by cbn.
Qed.

(** X13.  What is read after the first [q] plays no part: the frames and
    keys after it are not looked at. *)
Theorem ticks_after_quit_ignored read1 read2 pre t rest :
  Forall (fun t => quit_key t = false) pre ->
  quit_key t = true ->
  main' read1 read2 (pre ++ t :: rest) = main' read1 read2 (pre ++ [t]).
Proof.
  intros Hpre Hq. unfold main.
  rewrite (main_loop_quit _ _ _ _ pre t rest _ Hpre Hq).
  by rewrite (main_loop_quit _ _ _ _ pre t [] _ Hpre Hq).
Qed.

(** X14.  An exception in a frame ends [main] there: [main] raises exactly
    when one of the frames up to the first [q] raises, and then nothing is
    printed, whatever keys follow. *)
Theorem raised_iff_frame_raises read1 read2 ticks :
  main' read1 read2 ticks = Raised <->
  run_frames' (resize read1) (resize read2)
    (map tick_frame (played ticks)) initial_state = None.
Proof.
  unfold main. rewrite main_loop_outcome.
  destruct (run_frames' _ _ _ _) as [st0|]; [|done].
  by destruct (existsb quit_key ticks).
Qed.

End MoreRunFacts.

(** ** The counters and the collaborators (lines 60, 167, 183-198) *)

Section MoreCounterFacts.
Context `{Ext : Externals}.
Variable program_data : ProgramData.
Variable confidence_arg : Q.

(** A property of the counters that the two collaborators handed the
    dictionary keep. *)
Variable P : Counters -> Prop.
Hypothesis handle_properties_keeps : forall frame props ctrs od,
  P ctrs -> P (handle_properties frame props ctrs od).
Hypothesis handle_targets_conditions_keeps : forall tc ctrs frame,
  P ctrs -> P (handle_targets_conditions tc ctrs frame).

Lemma object_body_keeps frame st o st' :
  object_body program_data frame st o = Some st' ->
  P (counters st) -> P (counters st').
Proof.
  destruct o as [oid [cen rect]]. unfold object_body.
  destruct (targets program_data !! _) as [tdef|]; [|done].
  cbn [mbind option_bind].
  destruct (class_counter st !! _) as [n|]; [|by intros [= <-]].
  cbv zeta. intros Hb HP.
  assert (Hw : P (check_targets_conditions (targets_conditions program_data)
                    frame (counters st, trace st)).1).
  { unfold check_targets_conditions.
    destruct (targets_conditions program_data); cbn [fst]; [|done].
    by apply handle_targets_conditions_keeps. }
  destruct (eligible _ _ _); injection Hb as <-; cbn [counters]; [|done].
  by apply handle_properties_keeps.
Qed.

Lemma objects_loop_keeps frame objs : forall st st',
  objects_loop program_data frame objs st = Some st' ->
  P (counters st) -> P (counters st').
Proof.
  induction objs as [|o objs IH]; intros st st'.
  - cbn. by intros [= <-].
  - cbn [objects_loop].
    destruct (object_body program_data frame st o) as [st1|] eqn:Hb; [|done].
    cbn [mbind option_bind]. intros Hl HP.
    eapply IH; [exact Hl|]. by eapply object_body_keeps.
Qed.

(** X15.  [main] itself never writes [counters]: the dictionary starts
    empty and is changed only by [handle_properties] and
    [handle_targets_conditions], so whatever these two keep true of it is
    true of it after any number of frames. *)
Theorem counters_changed_by_collaborators_only frame1 frame2 raws st st' :
  run_frames program_data confidence_arg frame1 frame2 raws st = Some st' ->
  P (run_counters st) -> P (run_counters st').
Proof.
  revert st. induction raws as [|raw raws IH]; intros st.
  - cbn. by intros [= <-].
  - cbn [run_frames].
    destruct (frame_body _ _ _ _ st raw) as [st1|] eqn:Hf; [|done].
    cbn [mbind option_bind]. intros Hr HP. apply (IH _ Hr).
    destruct (frame_body_inv _ _ _ _ _ _ _ Hf)
      as (rects & cc & ls & Hb & Hl & ->).
    cbn [run_counters]. by apply (objects_loop_keeps _ _ _ _ Hl).
Qed.

End MoreCounterFacts.

(** ** The scene again *)

Section MoreSceneFacts.
Import Scene.

(** Two rects of class [person] for the entry 2. *)
Lemma rects_agree_with_class_counter_witness :
  Z.of_nat (length (List.filter
                      (fun r => bool_decide (class_name (info r) = "person"))
                      (frame_rects two_persons)))
  = default 0 (frame_counts two_persons !! "person")
  /\ frame_counts two_persons !! "person" = Some 2.
Proof.
  destruct (rects_agree_with_class_counter confidence (targets program)
              (Collaborators.network_output two_persons)
              (frame_rects two_persons) (frame_counts two_persons) eq_refl)
    as (_ & Hc & _).
  split; [exact (Hc "person")|reflexivity].
Defined.


(** After two persons, one person alone: the tracker still returns both. *)
Example both_persons_tracked :
  map (fun o => (item_id o, item_class o)) (tracked [two_persons] person_alone)
  = [(0%nat, "person"); (1%nat, "person")].
Proof. reflexivity. Qed.

(** One person detected, two tracked: the entry ends at [1 - 2]. *)
Lemma class_counter_after_objects_witness :
  class_counter
    (loop_exit person_alone (tracked [two_persons] person_alone))
  !! "person" = Some (1 - 2).
Proof.
  destruct (class_counter_after_objects program person_alone
              (tracked [two_persons] person_alone) (loop_entry person_alone)
              (loop_exit person_alone (tracked [two_persons] person_alone))
              eq_refl) as [_ Hc].
  exact (Hc "person" 1 eq_refl).
Defined.

(** One person detected, two tracked: both are checked. *)
Lemma checked_objects_witness :
  map fst (bound_checks
             (trace (loop_exit person_alone
                       (tracked [two_persons] person_alone))))
  = [0%nat; 1%nat].
Proof.
  exact (checked_objects program person_alone
           (tracked [two_persons] person_alone) (loop_entry person_alone)
           (loop_exit person_alone (tracked [two_persons] person_alone))
           eq_refl).
Defined.


(** Two persons, then nothing: two updates, the second with no rect. *)
Lemma tracker_updated_every_frame_witness :
  tracker_updates (run_trace (after [two_persons; empty_view []]))
  = [frame_rects two_persons; []].
Proof.
  exact (tracker_updated_every_frame program confidence ref1 ref2
           [two_persons; empty_view []] st0
           (after [two_persons; empty_view []])
           (after_run [two_persons; empty_view []] eq_refl)).
Defined.

(** A frame with motion and one without: two calls of the detector, one of
    [handle_activity]. *)
Lemma activity_calls_bounded_witness :
  exists calls handlings : nat,
    length (activity_calls (run_trace (after [moved; two_persons])))
    = (0 + calls)%nat
    /\ activity_handlings (run_trace (after [moved; two_persons]))
       = (0 + handlings)%nat
    /\ (handlings <= calls <= 2)%nat.
Proof.
  destruct (activity_calls_bounded program confidence ref1 ref2
              [moved; two_persons] st0 (after [moved; two_persons])
              (after_run [moved; two_persons] eq_refl))
    as (calls & handlings & Hc & Hh & Hle & _).
  exists calls, handlings. exact (conj Hc (conj Hh Hle)).
Defined.

Lemma finished_after (pre : list (@Tick ext)) (t : @Tick ext) rest :
  Forall (fun t => quit_key t = false) pre ->
  quit_key t = true ->
  runs (map (@tick_frame ext) (pre ++ [t])) = true ->
  @main ext program confidence ref1 ref2 (pre ++ t :: rest)
  = Finished (run_counters (after (map (@tick_frame ext) (pre ++ [t]))))
      {| tracker := tracker (after (map (@tick_frame ext) (pre ++ [t])));
         run_counters :=
           run_counters (after (map (@tick_frame ext) (pre ++ [t])));
         run_trace :=
           run_trace (after (map (@tick_frame ext) (pre ++ [t])))
           ++ [Print (run_counters
                        (after (map (@tick_frame ext) (pre ++ [t]))))] |}.
Proof.
  intros Hpre Hq Hr. unfold main.
  rewrite (main_loop_quit program confidence _ _ pre t rest _ Hpre Hq).
  change (@resize ext ref1) with ref1. change (@resize ext ref2) with ref2.
  change (@initial_state ext) with st0. by rewrite (after_run _ Hr).
Qed.

Lemma no_quit_first :
  Forall (fun t => @quit_key ext t = false) [tick two_persons (-1)].
Proof. apply List.Forall_cons; [reflexivity|apply List.Forall_nil]. Qed.

(** [q] at the second frame: the counters are printed once. *)
Lemma finished_only_on_quit_witness :
  exists c st,
    @main ext program confidence ref1 ref2
      [tick two_persons (-1); tick car_and_person 113; tick two_persons 0]
    = Finished c st
    /\ prints (run_trace st) = [c].
Proof.
  eexists _, _. split.
  - exact (finished_after [tick two_persons (-1)] (tick car_and_person 113)
             [tick two_persons 0] no_quit_first eq_refl eq_refl).
  - destruct (finished_only_on_quit program confidence ref1 ref2 _ _ _
                (finished_after [tick two_persons (-1)]
                   (tick car_and_person 113) [tick two_persons 0]
                   no_quit_first eq_refl eq_refl))
      as (_ & st1 & _ & _ & _ & _ & _ & Hp).
    exact Hp.
Defined.

(** The third frame is not looked at. *)
Lemma ticks_after_quit_ignored_witness :
  @main ext program confidence ref1 ref2
    [tick two_persons (-1); tick car_and_person 113; tick two_persons 0]
  = @main ext program confidence ref1 ref2
      [tick two_persons (-1); tick car_and_person 113].
Proof.
  exact (ticks_after_quit_ignored program confidence ref1 ref2
           [tick two_persons (-1)] (tick car_and_person 113)
           [tick two_persons 0] no_quit_first eq_refl).
Defined.

Lemma handle_properties_no_empty_counter {F P} (frame : F)
    (props : option P) ctrs od :
  no_empty_counter ctrs ->
  no_empty_counter (Collaborators.handle_properties frame props ctrs od).
Proof.
  unfold Collaborators.handle_properties, no_empty_counter.
  destruct (counter_name od) as [c'|]; [|done].
  intros Hc c s. destruct (decide (c' = c)) as [->|Hne].
  - rewrite lookup_insert_eq. intros [= <-]. set_solver.
  - rewrite lookup_insert_ne by done. apply Hc.
Qed.

(** With the collaborators of the scene no counter is ever empty. *)
Lemma counters_changed_by_collaborators_only_witness :
  no_empty_counter
    (run_counters (after [two_persons; car_and_person; empty_view []])).
Proof.
  apply (counters_changed_by_collaborators_only program confidence
           no_empty_counter
           (fun frame props ctrs od =>
              handle_properties_no_empty_counter frame props ctrs od)
           (fun tc ctrs frame H => H)
           ref1 ref2 [two_persons; car_and_person; empty_view []] st0
           (after [two_persons; car_and_person; empty_view []])
           (after_run [two_persons; car_and_person; empty_view []] eq_refl)).
  intros c s Hs. discriminate Hs.
Defined.

End MoreSceneFacts.
